(** * kurrik/golibs: the OAuth 1.0a signer and the Twitter streaming client

    A shallow embedding of [oauth1a/oauth1a.go] and [twstream/twstream.go].

    Conventions.
    - A Go [string] is a sequence of bytes: Rocq's [string] (a list of
      8-bit [ascii]); a Go [[]byte] is a [list ascii].
    - A Go [map[string]string] is a [gmap string string].  A [range] over a
      map visits the entries in an order the language leaves open, so every
      [range] whose order can be observed takes the visiting order as an
      argument (a [RangeOrder]).
    - Integers of a fixed width are [Z] or [N] with the wrap-around written
      out.
    - A function that can loop or recurse without bound takes a [fuel] and
      returns an [option]; [None] means that the fuel ran out.  A function
      that returns an [error] returns a [result], which is also where a
      run-time panic shows. *)

From Stdlib Require Import ZArith NArith Ascii String List Lia Bool.
From stdpp Require Import base list sorting gmap strings.

Local Open Scope string_scope.

(** * Definitions *)

(** ** Functions of Go's standard library used by the code *)

Module gostd.

(** [strings.Join(parts, sep)]. *)
Fixpoint Join (parts : list string) (sep : string) : string :=
  match parts with
  | [] => ""
  | [p] => p
  | p :: rest => p ++ sep ++ Join rest sep
  end.

Definition byteval (c : ascii) : N := N_of_ascii c.

Definition upperDigits : string := "0123456789ABCDEF".
Definition lowerDigits : string := "0123456789abcdef".

(** The [d]-th character of a digit table. *)
Definition digitOf (table : string) (d : N) : ascii :=
  match String.get (N.to_nat d) table with
  | Some c => c
  | None => "0"%char
  end.

(** The digits of [n] in base 16, most significant first, with no leading
    zero (one digit for zero): what the verbs [%X] and [%x] print for an
    unsigned integer. *)
Fixpoint hexDigits (fuel : nat) (table : string) (n : N) (acc : string) : string :=
  let acc' := String (digitOf table (n mod 16)) acc in
  match fuel with
  | O => acc'
  | S fuel' => if (n / 16 =? 0)%N then acc' else hexDigits fuel' table (n / 16) acc'
  end.

(** [fmt.Sprintf("%X", n)] for an unsigned integer [n]. *)
Definition Sprintf_X (n : N) : string := hexDigits (N.size_nat n) upperDigits n "".

(** [strings.IndexAny(string(c), chars) != -1] for a byte [c] and a set
    [chars] of ASCII characters.  [string(c)] is the UTF-8 form of the code
    point [c]; for [c >= 0x80] it holds no ASCII character, and no byte of
    [chars] equals [c] either, so the test is membership of the byte. *)
Definition byteIn (c : ascii) (chars : string) : bool :=
  existsb (Ascii.eqb c) (list_ascii_of_string chars).

(** [url.QueryEscape]: letters, digits and [-_.~] are kept, a space becomes
    [+], every other byte becomes [%XX] with two upper-case digits. *)
Definition queryUnreserved : string :=
  "0123456789ABCDEFGHIJKLMNOPQRSTUVWXYZabcdefghijklmnopqrstuvwxyz-_.~".

Definition queryEscapeByte (c : ascii) : string :=
  if byteIn c queryUnreserved then String c ""
  else if Ascii.eqb c " "%char then "+"
  else String "%" (String (digitOf upperDigits (byteval c / 16))
                  (String (digitOf upperDigits (byteval c mod 16)) "")).

Fixpoint QueryEscape (s : string) : string :=
  match s with
  | "" => ""
  | String c rest => queryEscapeByte c ++ QueryEscape rest
  end.

(** [sort.Strings]: the keys in increasing byte-wise lexicographic order. *)
Definition strLe (a b : string) : Prop := String.leb a b = true.

#[global] Instance strLe_dec a b : Decision (strLe a b).
Proof. unfold strLe. apply _. Defined.

Definition sort_Strings (keys : list string) : list string :=
  merge_sort strLe keys.

(** [strings.ToLower].  On a string of ASCII bytes only, the letters A to Z
    are lowered and the other bytes kept.  On any other string Go maps
    every rune through [unicode.ToLower] and encodes the result again
    ([strings.Map]); some letters outside ASCII become ASCII letters that
    way (U+0130 becomes i, U+212A becomes k).  The tables of the [unicode]
    package are not among the sources: what they make of a string that is
    not ASCII only is the parameter [unicode]. *)
Definition lowerByte (c : ascii) : ascii :=
  if ((65 <=? byteval c) && (byteval c <=? 90))%N then ascii_of_N (byteval c + 32) else c.

Fixpoint isASCII (s : string) : bool :=
  match s with
  | "" => true
  | String c rest => (byteval c <? 128)%N && isASCII rest
  end.

Fixpoint lowerASCII (s : string) : string :=
  match s with
  | "" => ""
  | String c rest => String (lowerByte c) (lowerASCII rest)
  end.

Definition ToLower (unicode : string → string) (s : string) : string :=
  if isASCII s then lowerASCII s else unicode s.

(** [strings.HasPrefix(s, prefix)]. *)
Definition HasPrefix (s prefix : string) : bool := String.prefix prefix s.

(** [strings.Index(s, substr) > -1]. *)
Definition contains (s substr : string) : bool :=
  match String.index 0 substr s with
  | Some _ => true
  | None => false
  end.

End gostd.

(** ** SHA-1, HMAC and base64 (crypto/sha1, crypto/hmac, encoding/base64) *)

Module crypto.

Local Open Scope Z_scope.
Local Open Scope list_scope.

Definition w32 (x : Z) : Z := x mod 2 ^ 32.

Definition rotl (n x : Z) : Z :=
  w32 (Z.lor (Z.shiftl x n) (Z.shiftr x (32 - n))).

Definition bytesOf (s : string) : list Z :=
  map (fun c => Z.of_N (N_of_ascii c)) (list_ascii_of_string s).

Definition stringOf (bs : list Z) : string :=
  string_of_list_ascii (map (fun b => ascii_of_N (Z.to_N b)) bs).

(** Big-endian bytes of [x], [n] of them. *)
Fixpoint bigEndian (n : nat) (x : Z) : list Z :=
  match n with
  | O => []
  | S n' => (Z.shiftr x (8 * Z.of_nat n')) mod 256 :: bigEndian n' x
  end.

Definition word (bs : list Z) : Z :=
  fold_left (fun acc b => acc * 256 + b) bs 0.

(** The message followed by 0x80, zeros up to 56 mod 64, and the bit length
    on eight bytes. *)
Definition pad (msg : list Z) : list Z :=
  let len := Z.of_nat (length msg) in
  let zeros := Z.to_nat ((55 - len) mod 64) in
  msg ++ 128 :: repeat 0 zeros ++ bigEndian 8 (8 * len).

Fixpoint chunks (fuel : nat) (size : nat) (bs : list Z) : list (list Z) :=
  match fuel, bs with
  | _, [] => []
  | O, _ => []
  | S fuel', _ => firstn size bs :: chunks fuel' size (skipn size bs)
  end.

(** The message schedule, most recent word first. *)
Fixpoint schedule (n : nat) (ws : list Z) : list Z :=
  match n with
  | O => ws
  | S n' =>
      let w := rotl 1 (Z.lxor (Z.lxor (nth 2 ws 0) (nth 7 ws 0))
                              (Z.lxor (nth 13 ws 0) (nth 15 ws 0))) in
      schedule n' (w :: ws)
  end.

Definition roundFK (i : nat) (b c d : Z) : Z * Z :=
  if (i <? 20)%nat then
    (Z.lor (Z.land b c) (Z.land (w32 (Z.lnot b)) d), 1518500249)
  else if (i <? 40)%nat then
    (Z.lxor (Z.lxor b c) d, 1859775393)
  else if (i <? 60)%nat then
    (Z.lor (Z.lor (Z.land b c) (Z.land b d)) (Z.land c d), 2400959708)
  else
    (Z.lxor (Z.lxor b c) d, 3395469782).

Definition state : Type := Z * Z * Z * Z * Z.

Fixpoint rounds (i : nat) (ws : list Z) (st : state) : state :=
  match ws with
  | [] => st
  | w :: ws' =>
      let '(a, b, c, d, e) := st in
      let '(f, k) := roundFK i b c d in
      let t := w32 (rotl 5 a + f + e + k + w) in
      rounds (S i) ws' (t, a, rotl 30 b, c, d)
  end.

Definition compress (st : state) (block : list Z) : state :=
  let ws0 := map word (chunks 16 4 block) in
  let ws := rev (schedule 64 (rev ws0)) in
  let '(a, b, c, d, e) := st in
  let '(a', b', c', d', e') := rounds 0 ws st in
  (w32 (a + a'), w32 (b + b'), w32 (c + c'), w32 (d + d'), w32 (e + e')).

Definition initial : state :=
  (1732584193, 4023233417, 2562383102, 271733878, 3285377520).

Definition sha1 (msg : list Z) : list Z :=
  let padded := pad msg in
  let '(a, b, c, d, e) :=
    fold_left compress (chunks (length padded) 64 padded) initial in
  bigEndian 4 a ++ bigEndian 4 b ++ bigEndian 4 c ++ bigEndian 4 d ++ bigEndian 4 e.

(** [hmac.New(sha1.New, key)], [Write(msg)], [Sum(nil)]. *)
Definition hmac_sha1 (key msg : list Z) : list Z :=
  let key' := if (64 <? Z.of_nat (length key)) then sha1 key else key in
  let block := key' ++ repeat 0 (64 - length key')%nat in
  let ipad := map (Z.lxor 54) block in
  let opad := map (Z.lxor 92) block in
  sha1 (opad ++ sha1 (ipad ++ msg)).

Definition b64table : string :=
  "ABCDEFGHIJKLMNOPQRSTUVWXYZabcdefghijklmnopqrstuvwxyz0123456789+/".

Definition b64 (x : Z) : ascii := gostd.digitOf b64table (Z.to_N (x mod 64)).

(** [base64.StdEncoding.EncodeToString]. *)
Fixpoint base64 (bs : list Z) : string :=
  match bs with
  | [] => ""%string
  | [x] =>
      String (b64 (x / 4)) (String (b64 (x * 16)) "=="%string)
  | [x; y] =>
      String (b64 (x / 4)) (String (b64 (x * 16 + y / 16))
        (String (b64 (y * 4)) "="%string))
  | x :: y :: z :: rest =>
      String (b64 (x / 4)) (String (b64 (x * 16 + y / 16))
        (String (b64 (y * 4 + z / 64)) (String (b64 z) (base64 rest))))
  end.

(** [fmt.Sprintf("%x", bytes)]: two lower-case digits per byte. *)
Fixpoint hexLower (bs : list Z) : string :=
  match bs with
  | [] => ""%string
  | b :: rest =>
      String (gostd.digitOf gostd.lowerDigits (Z.to_N (b / 16)))
        (String (gostd.digitOf gostd.lowerDigits (Z.to_N (b mod 16))) (hexLower rest))
  end.

End crypto.

(** ** oauth1a/oauth1a.go *)

Module oauth1a.

Import gostd.

Abbreviation Values := (gmap string (list string)).

(** The double quote character, as a one-byte string. *)
Definition dq : string := String "034"%char EmptyString.

Record ClientConfig := {
  ConsumerSecret : string;
  ConsumerKey : string;
  CallbackURL : string
}.

Record UserConfig := {
  RequestTokenSecret : string;
  RequestTokenKey : string;
  AccessTokenSecret : string;
  AccessTokenKey : string;
  Verifier : string;
  AccessValues : Values
}.

(** [UserConfig.GetToken]: access token first, then request token, then
    the empty pair. *)
Definition GetToken (c : UserConfig) : string * string :=
  if negb (String.eqb (AccessTokenKey c) "") then
    (AccessTokenKey c, AccessTokenSecret c)
  else if negb (String.eqb (RequestTokenKey c) "") then
    (RequestTokenKey c, RequestTokenSecret c)
  else ("", "").

(** The parts of [http.Request] the signer reads and writes: [Query] is
    [request.URL.Query()], [Form] is [request.Form] (a nil map reads as
    the empty one).  [request.ParseForm()] is code of the HTTP library: it
    leaves a form that is parsed already, and otherwise reads the query
    string and the body and stores what it finds as the form.  What it
    will find is the field [unparsed] of the request: [None] when the form
    is parsed already, [Some form] when [request.Form] is still nil and
    [ParseForm] will set it to [form]. *)
Record URL := {
  Scheme : string;
  Host : string;
  Path : string;
  Query : Values
}.

Record Request := {
  Method : string;
  Url : URL;
  Form : Values;
  Header : Values;
  unparsed : option Values
}.

(** [request.ParseForm()]; its error is not looked at by the signer. *)
Definition ParseForm (request : Request) : Request :=
  match unparsed request with
  | None => request
  | Some form =>
      {| Method := Method request; Url := Url request; Form := form;
         Header := Header request; unparsed := None |}
  end.

(** The order in which one [range] statement visits a map. *)
Definition RangeOrder : Type := gmap string string → list (string * string).

(** Go only promises that every entry is visited once. *)
Definition RangeOrder_ok (rng : RangeOrder) : Prop :=
  ∀ m, rng m ≡ₚ map_to_list m.

(** [params[key]]: the zero value for an absent key. *)
Definition index (params : gmap string string) (key : string) : string :=
  default "" (params !! key).

Definition UNESCAPE_CHARS : string :=
  "0123456789ABCDEFGHIJKLMNOPQRSTUVWXYZabcdefghijklmnopqrstuvwxyz-._~".

(** What the loop body of [Rfc3986Escape] appends for the byte [c]. *)
Definition escapeByte (c : ascii) : string :=
  if negb (byteIn c UNESCAPE_CHARS) then "%" ++ Sprintf_X (byteval c)
  else String c "".

Fixpoint Rfc3986Escape (input : string) : string :=
  match input with
  | EmptyString => ""
  | String c rest => escapeByte c ++ Rfc3986Escape rest
  end.

(** [HmacSha1Signer.encodeParameters]; [rng] is the order of its [range]
    over [params]. *)
Definition encodeParameters (rng : RangeOrder) (params : gmap string string) : string :=
  let keys := (rng params).*1 in
  let keys := sort_Strings keys in
  let encodedParts :=
    (λ key, Rfc3986Escape key ++ "=" ++ Rfc3986Escape (index params key)) <$> keys in
  QueryEscape (Join encodedParts "&").

(** [HmacSha1Signer.GenerateNonce]; [now] is [time.Now()] as [%v] prints it. *)
Definition GenerateNonce (now : string) : string :=
  let token := "OAuth Client Lib " ++ now in
  crypto.hexLower (crypto.sha1 (crypto.bytesOf token)).

(** [HmacSha1Signer.GetSignature]. *)
Definition GetSignature (consumerSecret tokenSecret signatureBase : string) : string :=
  let signingKey := consumerSecret ++ "&" ++ tokenSecret in
  crypto.base64 (crypto.hmac_sha1 (crypto.bytesOf signingKey)
                                  (crypto.bytesOf signatureBase)).

(** [for key, value := range vals { signingParams[key] = value[0] }];
    [None] is the run-time panic of [value[0]] on an empty slice. *)
Definition mergeFirst (vals : Values) (signingParams : gmap string string)
  : option (gmap string string) :=
  map_fold (λ key value acc,
              match acc, value with
              | Some sp, v0 :: _ => Some (<[key := v0]> sp)
              | _, _ => None
              end) (Some signingParams) vals.

(** [HmacSha1Signer.GetOAuthParams]; [rng] is the order of the [range] in
    [encodeParameters], the only one whose order could show.  The request
    is left as [ParseForm request]. *)
Definition GetOAuthParams (rng : RangeOrder) (request : Request)
    (clientConfig : ClientConfig) (userConfig : UserConfig)
    (nonce timestamp : string) : option (gmap string string * string) :=
  let request := ParseForm request in
  let oauthParams : gmap string string :=
    <["oauth_version" := "1.0"]>
    (<["oauth_timestamp" := timestamp]>
    (<["oauth_signature_method" := "HMAC-SHA1"]>
    (<["oauth_nonce" := nonce]>
    (<["oauth_consumer_key" := ConsumerKey clientConfig]> ∅)))) in
  let '(tokenKey, tokenSecret) := GetToken userConfig in
  let oauthParams :=
    if negb (String.eqb tokenKey "") then <["oauth_token" := tokenKey]> oauthParams
    else oauthParams in
  let signingParams : gmap string string :=
    map_fold (λ key value acc, <[key := value]> acc) ∅ oauthParams in
  match mergeFirst (Query (Url request)) signingParams with
  | None => None
  | Some signingParams =>
      match mergeFirst (Form request) signingParams with
      | None => None
      | Some signingParams =>
          let signingUrl :=
            Scheme (Url request) ++ "://" ++ Host (Url request) ++ Path (Url request) in
          let signatureParts :=
            [Method request; QueryEscape signingUrl; encodeParameters rng signingParams] in
          let signatureBase := Join signatureParts "&" in
          Some (<["oauth_signature" :=
                    GetSignature (ConsumerSecret clientConfig) tokenSecret signatureBase]>
                  oauthParams, signatureBase)
      end
  end.

(** The header [Sign] builds from the parameters; [rng] is the order of its
    [range] over [oauthParams]. *)
Definition oauthHeader (rng : RangeOrder) (oauthParams : gmap string string) : string :=
  let headerParts :=
    (λ kv : string * string,
       Rfc3986Escape kv.1 ++ "=" ++ dq ++ Rfc3986Escape kv.2 ++ dq) <$> rng oauthParams in
  "OAuth " ++ Join headerParts ", ".

(** The body of [HmacSha1Signer.Sign] once [nonce] and [timestamp] are
    known: the request as the call leaves it, that is as [GetOAuthParams]
    left it ([ParseForm]), with the Authorization header set.  The
    returned error is always [nil]; [None] is the panic of
    [GetOAuthParams]. *)
Definition SignWith (rngEncode rngHeader : RangeOrder) (nonce timestamp : string)
    (request : Request) (clientConfig : ClientConfig) (userConfig : UserConfig)
  : option Request :=
  match GetOAuthParams rngEncode request clientConfig userConfig nonce timestamp with
  | None => None
  | Some (oauthParams, _) =>
      let request := ParseForm request in
      Some {| Method := Method request; Url := Url request; Form := Form request;
              Header := <["Authorization" := [oauthHeader rngHeader oauthParams]]>
                          (Header request);
              unparsed := unparsed request |}
  end.

(** What [Sign] takes from outside its arguments: the two readings of the
    clock and the two visiting orders. *)
Record SignEnv := {
  nonceTime : string;
  stampTime : string;
  encodeOrder : RangeOrder;
  headerOrder : RangeOrder
}.

(** [HmacSha1Signer.Sign]. *)
Definition Sign (env : SignEnv) (request : Request)
    (clientConfig : ClientConfig) (userConfig : UserConfig) : option Request :=
  let nonce := GenerateNonce (nonceTime env) in
  let timestamp := stampTime env in
  SignWith (encodeOrder env) (headerOrder env) nonce timestamp
           request clientConfig userConfig.

(** Two visiting orders: by increasing key, and by decreasing key. *)
Definition keyLe (a b : string * string) : Prop := strLe a.1 b.1.

#[global] Instance keyLe_dec a b : Decision (keyLe a b).
Proof. unfold keyLe. apply _. Defined.

Definition rangeSorted : RangeOrder := λ m, merge_sort keyLe (map_to_list m).
Definition rangeReversed : RangeOrder := λ m, reverse (rangeSorted m).

(** [m[k] = v] for each pair of [l], in order. *)
Definition insertAll (l : list (string * string)) : gmap string string :=
  foldl (λ m kv, <[kv.1 := kv.2]> m) ∅ l.

(** The request, client and user of the test fixture; the request comes
    from [http.NewRequest], its form is not parsed yet, and there is
    nothing to find in it. *)
Definition fixtureRequest : Request :=
  {| Method := "GET";
     Url := {| Scheme := "https"; Host := "stream.twitter.com";
               Path := "/1/statuses/filter.json"; Query := ∅ |};
     Form := ∅; Header := ∅; unparsed := Some ∅ |}.

Definition fixtureClient : ClientConfig :=
  {| ConsumerSecret := "consumersecret"; ConsumerKey := "consumerkey"; CallbackURL := "" |}.

Definition fixtureUser : UserConfig :=
  {| RequestTokenSecret := ""; RequestTokenKey := "";
     AccessTokenSecret := "secret"; AccessTokenKey := "token";
     Verifier := ""; AccessValues := ∅ |}.

Definition fixtureHeader : string :=
  "OAuth oauth_consumer_key=" ++ dq ++ "consumerkey" ++ dq ++
  ", oauth_nonce=" ++ dq ++ "54321" ++ dq ++
  ", oauth_signature=" ++ dq ++ "dG59sMu9QpDU4oJMGCjKEKGlVYU%3D" ++ dq ++
  ", oauth_signature_method=" ++ dq ++ "HMAC-SHA1" ++ dq ++
  ", oauth_timestamp=" ++ dq ++ "12345" ++ dq ++
  ", oauth_token=" ++ dq ++ "token" ++ dq ++
  ", oauth_version=" ++ dq ++ "1.0" ++ dq.

Definition authorization (r : option Request) : option (list string) :=
  r ≫= λ r, Header r !! "Authorization".

(** The unreserved set of RFC 3986, by ranges. *)
Definition unreserved (c : ascii) : bool :=
  let n := byteval c in
  ((65 <=? n) && (n <=? 90) || (97 <=? n) && (n <=? 122) || (48 <=? n) && (n <=? 57)
   || (n =? 45) || (n =? 46) || (n =? 95) || (n =? 126))%N.

End oauth1a.

(** ** twstream/twstream.go *)

Module twstream.

Local Open Scope Z_scope.
Local Open Scope list_scope.

Abbreviation bytes := (list ascii).

(** Go's [error] values met by this package. *)
Inductive error : Type :=
  | io_EOF
  | io_ErrShortWrite
  | errors_New (text : string)
  | foreign (text : string).

#[global] Instance error_eq_dec : EqDecision error.
Proof. solve_decision. Defined.

(** The result of a function that returns an [error]; a run-time panic
    ends the goroutine instead. *)
Inductive result : Type :=
  | Return (err : option error)
  | Panic (msg : string).

(** [io.Writer]. *)
Class io_Writer (W : Type) := Write : W → bytes → W * (Z * option error).

Definition len {A} (p : list A) : Z := Z.of_nat (length p).

Definition CR : ascii := "013"%char.
Definition LF : ascii := "010"%char.
Definition CRLF : bytes := [CR; LF].

Definition code (c : ascii) : Z := Z.of_N (N_of_ascii c).
Definition u8 (x : Z) : Z := x mod 2 ^ 8.
Definition u64 (x : Z) : Z := x mod 2 ^ 64.
(** [int64(x)] for an [x] of type [uint64]. *)
Definition int64 (x : Z) : Z := if x <? 2 ^ 63 then x else x - 2 ^ 64.

(** The loop of [decodeHexString], from the accumulated [size] on. *)
Fixpoint decodeHexLoop (data : bytes) (size : Z) : Z * option error :=
  match data with
  | [] => (size, None)
  | c :: rest =>
      let c := code c in
      if (48 <=? c) && (c <=? 57) then
        decodeHexLoop rest (u64 (size * 16 + u8 (c - 48)))
      else if (97 <=? c) && (c <=? 102) then
        decodeHexLoop rest (u64 (size * 16 + u8 (c - 97 + 10)))
      else if (65 <=? c) && (c <=? 70) then
        decodeHexLoop rest (u64 (size * 16 + u8 (c - 65 + 10)))
      else (0, Some (errors_New "Invalid hex"))
  end.

Definition decodeHexString (data : bytes) : Z * option error :=
  decodeHexLoop data 0.

(** The network connection: the bytes the peer sends before the stream
    ends, the error [Read] reports from then on, the outcome of a [Write],
    and what was written and closed. *)
Record Conn := {
  incoming : bytes;
  endError : error;
  writeError : option error;
  sent : list bytes;
  closes : nat
}.

#[global] Instance Conn_Write : io_Writer Conn := λ c p,
  match writeError c with
  | Some e => (c, (0, Some e))
  | None =>
      ({| incoming := incoming c; endError := endError c; writeError := None;
          sent := sent c ++ [p]; closes := closes c |}, (len p, None))
  end.

(** A sink that records every slice written to it: [os.Stdout], and the
    listeners a caller plugs in.  Its writes succeed. *)
Record Log := { written : list bytes }.

#[global] Instance Log_Write : io_Writer Log := λ l p,
  ({| written := written l ++ [p] |}, (len p, None)).

(** [io.MultiWriter(a, b)]: each write goes to [a], then to [b], and stops
    at the first error or short write. *)
Record MultiWriter (A B : Type) := { first : A; second : B }.
Arguments first {A B}.
Arguments second {A B}.

#[global] Instance MultiWriter_Write {A B} `{io_Writer A, io_Writer B}
  : io_Writer (MultiWriter A B) := λ m p,
  let '(a, (n, err)) := Write (first m) p in
  match err with
  | Some e => ({| first := a; second := second m |}, (n, Some e))
  | None =>
      if negb (n =? len p) then
        ({| first := a; second := second m |}, (n, Some io_ErrShortWrite))
      else
        let '(b, (n', err')) := Write (second m) p in
        match err' with
        | Some e => ({| first := a; second := b |}, (n', Some e))
        | None =>
            if negb (n' =? len p) then
              ({| first := a; second := b |}, (n', Some io_ErrShortWrite))
            else ({| first := a; second := b |}, (len p, None))
        end
  end.

Record listeningReader := {
  lreader : Conn;
  listener : Log
}.

(** [listeningReader.Read] (the field [reader] of the struct is [lreader]
    here, [reader] being a field of [Connection] too).  Its first statement,
    [r.Read(p)], is a call of the method itself, so the definition is by
    recursion on a bound [fuel] on the depth of calls; [None] means that the
    bound was reached. *)
Fixpoint listeningReader_Read (fuel : nat) (r : listeningReader) (p : bytes)
  : option (listeningReader * bytes * (Z * option error)) :=
  match fuel with
  | O => None
  | S fuel' =>
      match listeningReader_Read fuel' r p with
      | None => None
      | Some (r', p', (n, err)) =>
          match err with
          | None =>
              let '(l', res) := Write (listener r') p' in
              Some ({| lreader := lreader r'; listener := l' |}, p', res)
          | Some _ => Some (r', p', (n, err))
          end
      end
  end.

(** [NonEmptyWriter]. *)
Record NonEmptyWriter (W : Type) := { Writer : W }.
Arguments Writer {W}.

#[global] Instance NonEmptyWriter_Write {W} `{io_Writer W} : io_Writer (NonEmptyWriter W) := λ w p,
  let size := len p in
  if (size =? 0) || (size =? 2) && bool_decide (p = CRLF) then
    (w, (size, None))
  else
    let '(u, res) := Write (Writer w) p in
    ({| Writer := u |}, res).

(** *** The buffered reader *)

(** A [bufio.Reader] and the source under it: the bytes not yet consumed
    (buffered or still to come), the error the source reports after them,
    and, for a copy that starts with [k] bytes left, the sizes of the slices
    in which successive reads hand the bytes over (this depends on how the
    bytes arrive; an empty list of sizes means all at once). *)
Record Reader := {
  pending : bytes;
  atEnd : error;
  segment : nat → list nat
}.

Definition seek (r : Reader) (rest : bytes) : Reader :=
  {| pending := rest; atEnd := atEnd r; segment := segment r |}.

(** The size of the buffer of [bufio.NewReader]. *)
Definition bufSize : nat := 4096.

(** [bytes.IndexByte(data, LF)]. *)
Fixpoint indexLF (data : bytes) : option nat :=
  match data with
  | [] => None
  | c :: rest => if Ascii.eqb c LF then Some O else S <$> indexLF rest
  end.

(** [line] without a final CR. *)
Definition dropCR (line : bytes) : bytes :=
  match last line with
  | Some c => if Ascii.eqb c CR then take (length line - 1) line else line
  | None => line
  end.

(** [bufio.Reader.ReadLine] with a buffer of [size] bytes: the line up to
    the next LF, without its CR LF or LF; the rest of the stream when it
    ends before an LF; a buffer full of bytes when no LF is among the next
    [size] bytes (a final CR stays in the buffer); the error of the source
    when nothing is left.  The flag [isPrefix] is dropped by every caller. *)
Definition ReadLineSized (size : nat) (r : Reader) : bytes * option error * Reader :=
  let data := pending r in
  match data with
  | [] => ([], Some (atEnd r), r)
  | _ :: _ =>
      match indexLF (take size data) with
      | Some i => (dropCR (take i data), None, seek r (drop (S i) data))
      | None =>
          if (length data <? size)%nat then (data, None, seek r [])
          else
            let line := dropCR (take size data) in
            (line, None, seek r (drop (length line) data))
      end
  end.

Definition ReadLine (r : Reader) : bytes * option error * Reader :=
  ReadLineSized bufSize r.

(** The slices of [payload] with the given sizes; what is left after the
    last size, or at a size that is zero or too large, is one slice. *)
Fixpoint carve (sizes : list nat) (payload : bytes) : list bytes :=
  match sizes, payload with
  | _, [] => []
  | [], _ => [payload]
  | k :: ks, _ =>
      if (k =? 0)%nat || (length payload <=? k)%nat then [payload]
      else take k payload :: carve ks (drop k payload)
  end.

(** The loop of [io.Copy]: each slice read is written; the copy stops at
    the first failed or short write.  [done] counts the bytes read. *)
Fixpoint writeSlices {W} `{io_Writer W} (dst : W) (slices : list bytes) (done : nat)
  : W * nat * option error :=
  match slices with
  | [] => (dst, done, None)
  | p :: rest =>
      let '(dst', (nw, ew)) := Write dst p in
      match ew with
      | Some e => (dst', (done + length p)%nat, Some e)
      | None =>
          if negb (nw =? len p) then (dst', (done + length p)%nat, Some io_ErrShortWrite)
          else writeSlices dst' rest (done + length p)%nat
      end
  end.

(** [io.CopyN(dst, src, n)] from a buffered reader: [n] bytes, or those
    left when the source ends before, and then its error. *)
Definition CopyN {W} `{io_Writer W} (dst : W) (src : Reader) (n : Z)
  : W * Reader * option error :=
  if n <=? 0 then (dst, src, None)
  else
    let payload := take (Z.to_nat n) (pending src) in
    let slices := carve (segment src (length (pending src))) payload in
    let '(dst', done, werr) := writeSlices dst slices O in
    let src' := seek src (drop done (pending src)) in
    match werr with
    | Some e => (dst', src', Some e)
    | None => if len payload <? n then (dst', src', Some (atEnd src)) else (dst', src', None)
    end.

(** [bytes.Buffer] as a writer. *)
Record Buffer := { content : bytes }.

#[global] Instance Buffer_Write : io_Writer Buffer := λ b p,
  ({| content := content b ++ p |}, (len p, None)).

(** *** Configuration, connection and surroundings *)

Record Configuration := {
  Method : string;
  URL : oauth1a.URL;
  Chunked : bool;
  Proxy : string;
  WriterListener : option Log;
  ReaderListener : option Log;
  TTL : Z;
  GZip : bool
}.

(** Modelled from the spec: [twurlrc.Credentials] is declared in a package
    that is not among the sources; the data model lists its strings. *)
Record Credentials := {
  Token : string;
  Secret : string;
  ConsumerKey : string;
  ConsumerSecret : string;
  Username : string
}.

(** Modelled from the spec: [oauth1a.NewAuthorizedConfig] is not among the
    sources; it is the user configuration of existing credentials, an
    access token and its secret. *)
Definition NewAuthorizedConfig (token secret : string) : oauth1a.UserConfig :=
  {| oauth1a.RequestTokenSecret := ""; oauth1a.RequestTokenKey := "";
     oauth1a.AccessTokenSecret := secret; oauth1a.AccessTokenKey := token;
     oauth1a.Verifier := ""; oauth1a.AccessValues := ∅ |}.

(** [c.writer]: the connection itself, or
    [io.MultiWriter(c.conn, c.conf.WriterListener)]. *)
Inductive connWriter : Type := toConn | toConnAndListener.

(** [c.reader]: a [bufio.Reader] over the bytes of a source, or over a
    [listeningReader] from which nothing was read yet. *)
Inductive bufioReader : Type :=
  | readerPlain (r : Reader)
  | readerListening (l : listeningReader).

Record Connection := {
  conf : Configuration;
  cred : Credentials;
  conn : option Conn;
  writer : option connWriter;
  reader : option bufioReader
}.

Definition NewConnection (conf : Configuration) (cred : Credentials) : Connection :=
  {| conf := conf; cred := cred; conn := None; writer := None; reader := None |}.

(** What lies outside the program: the network, the HTTP and gzip
    libraries, the clock and the standard output. *)
Record World := {
  (** the error of [tls.Dial] or [net.Dial], and the connection it gives *)
  dialError : option error;
  peer : Conn;
  (** the error of [http.NewRequest] *)
  newRequestError : option error;
  (** the bytes [req.Write] ([false]) or [req.WriteProxy] ([true]) emits *)
  wire : oauth1a.Request → bool → bytes;
  signEnv : oauth1a.SignEnv;
  (** the slicing of the copies made from the connection *)
  segments : nat → list nat;
  (** [clock k] is the [k]-th reading of [time.Now()], in nanoseconds *)
  clock : nat → Z;
  ticks : nat;
  stdout : Log;
  (** [gzip.NewReader] over the rest of a stream: its error, or the decoded
      bytes and the error that ends them *)
  gunzip : bytes → error + bytes * error;
  (** [gzip.NewReader] over the buffer holding the first payload *)
  gzipOpen : bytes → option error;
  (** the 512-byte block after a read from the decompressor, once the
      given payloads have entered the buffer *)
  inflate : list bytes → error + bytes;
  (** [strings.ToLower] on a string that is not ASCII only (the tables of
      the [unicode] package) *)
  unicodeLower : string → string
}.

Definition setConf (c : Connection) (cf : Configuration) : Connection :=
  {| conf := cf; cred := cred c; conn := conn c; writer := writer c; reader := reader c |}.
Definition setConn (c : Connection) (k : option Conn) : Connection :=
  {| conf := conf c; cred := cred c; conn := k; writer := writer c; reader := reader c |}.
Definition setWriter (c : Connection) (wr : option connWriter) : Connection :=
  {| conf := conf c; cred := cred c; conn := conn c; writer := wr; reader := reader c |}.
Definition setReader (c : Connection) (rd : option bufioReader) : Connection :=
  {| conf := conf c; cred := cred c; conn := conn c; writer := writer c; reader := rd |}.

Definition setGZip (cf : Configuration) (b : bool) : Configuration :=
  {| Method := Method cf; URL := URL cf; Chunked := Chunked cf; Proxy := Proxy cf;
     WriterListener := WriterListener cf; ReaderListener := ReaderListener cf;
     TTL := TTL cf; GZip := b |}.
Definition setWriterListener (cf : Configuration) (l : option Log) : Configuration :=
  {| Method := Method cf; URL := URL cf; Chunked := Chunked cf; Proxy := Proxy cf;
     WriterListener := l; ReaderListener := ReaderListener cf;
     TTL := TTL cf; GZip := GZip cf |}.

Definition setStdout (w : World) (out : Log) : World :=
  {| dialError := dialError w; peer := peer w; newRequestError := newRequestError w;
     wire := wire w; signEnv := signEnv w; segments := segments w; clock := clock w;
     ticks := ticks w; stdout := out; gunzip := gunzip w; gzipOpen := gzipOpen w;
     inflate := inflate w; unicodeLower := unicodeLower w |}.

(** [time.Now()]. *)
Definition Now (w : World) : Z * World :=
  (clock w (ticks w),
   {| dialError := dialError w; peer := peer w; newRequestError := newRequestError w;
      wire := wire w; signEnv := signEnv w; segments := segments w; clock := clock w;
      ticks := S (ticks w); stdout := stdout w; gunzip := gunzip w; gzipOpen := gzipOpen w;
      inflate := inflate w; unicodeLower := unicodeLower w |}).

(** [fmt.Println(string(line))]. *)
Definition Println (w : World) (line : bytes) : World :=
  setStdout w (Write (stdout w) (line ++ [LF])).1.

(** [c.conn.Close()]. *)
Definition Close (k : Conn) : Conn :=
  {| incoming := incoming k; endError := endError k; writeError := writeError k;
     sent := sent k; closes := S (closes k) |}.

(** *** The operations of [Connection] *)

Definition outcome : Type := result * Connection * World.

(** [Connection.connect]: TLS to [host:443], or plain TCP to the proxy. *)
Definition connect (c : Connection) (w : World) : outcome :=
  match dialError w with
  | Some e => (Return (Some e), c, w)
  | None => (Return None, setConn c (Some (peer w)), w)
  end.

(** A write through [c.writer]. *)
Definition writeOut (c : Connection) (data : bytes) : Connection * option error :=
  match conn c with
  | None => (c, Some (foreign "use of a nil connection"))
  | Some k =>
      match writer c, WriterListener (conf c) with
      | Some toConnAndListener, Some l =>
          let '(m, (_, err)) := Write {| first := k; second := l |} data in
          (setConf (setConn c (Some (first m)))
                   (setWriterListener (conf c) (Some (second m))), err)
      | _, _ =>
          let '(k', (_, err)) := Write k data in
          (setConn c (Some k'), err)
      end
  end.

(** [Connection.request]. *)
Definition request (c : Connection) (w : World) : outcome :=
  match writer c with
  | None => (Return (Some (errors_New "Writer is not initialized")), c, w)
  | Some _ =>
      match newRequestError w with
      | Some e => (Return (Some e), c, w)
      | None =>
          let header : gmap string (list string) := ∅ in
          let header :=
            if negb (Chunked (conf c)) then <["Connection" := ["close"%string]]> header
            else header in
          let header :=
            if GZip (conf c) then <["Accept-Encoding" := ["deflate, gzip"%string]]> header
            else header in
          let req :=
            {| oauth1a.Method := Method (conf c);
               oauth1a.Url := {| oauth1a.Scheme := oauth1a.Scheme (URL (conf c));
                                 oauth1a.Host := oauth1a.Host (URL (conf c));
                                 oauth1a.Path := oauth1a.Path (URL (conf c));
                                 oauth1a.Query := ∅ |};
               oauth1a.Form := ∅;
               oauth1a.Header := header;
               (* from [http.NewRequest] with a nil body: the form is not
                  parsed yet, and the URL built above has no query *)
               oauth1a.unparsed := Some ∅ |} in
          let user := NewAuthorizedConfig (Token (cred c)) (Secret (cred c)) in
          let client :=
            {| oauth1a.ConsumerSecret := ConsumerSecret (cred c);
               oauth1a.ConsumerKey := ConsumerKey (cred c);
               oauth1a.CallbackURL := "" |} in
          match oauth1a.Sign (signEnv w) req client user with
          | None => (Panic "index out of range", c, w)
          | Some req =>
              let data := wire w req (negb (String.eqb (Proxy (conf c)) "")) in
              let '(c', err) := writeOut c data in
              (Return err, c', w)
          end
      end
  end.

(** The first read through [rd].  Over a [listeningReader] the buffer is
    empty and is filled by a call of its [Read]. *)
Definition force (fuel : nat) (w : World) (rd : bufioReader) : option Reader :=
  match rd with
  | readerPlain r => Some r
  | readerListening l =>
      match listeningReader_Read fuel l (repeat Ascii.zero bufSize) with
      | None => None
      | Some (_, p, (n, err)) =>
          Some {| pending := take (Z.to_nat n) p; atEnd := default io_EOF err;
                  segment := segments w |}
      end
  end.

(** Whether a lower-cased header line turns [isGZip] on. *)
Definition declaresGzip (lowerLine : string) : bool :=
  gostd.HasPrefix lowerLine "content-encoding:" && gostd.contains lowerLine "gzip".

(** The loop of [readHeaders]: the error returned from inside the loop, or
    [None] after [break], with the reader and [isGZip].  [line] is what
    [ReadLine] returns, a whole line or a piece of a line that does not fit
    the buffer: the loop does not look at [isPrefix]. *)
Fixpoint readHeadersLoop (unicode : string → string) (fuel : nat) (r : Reader)
    (isGZip : bool) : option (option error * Reader * bool) :=
  match fuel with
  | O => None
  | S fuel' =>
      let '(line, err, r) := ReadLine r in
      let lowerLine := gostd.ToLower unicode (string_of_list_ascii line) in
      let isGZip := if declaresGzip lowerLine then true else isGZip in
      if String.eqb (string_of_list_ascii line) "" then Some (None, r, isGZip)
      else
        match err with
        | Some e => Some (Some e, r, isGZip)
        | None => readHeadersLoop unicode fuel' r isGZip
        end
  end.

Definition nilReader : string := "invalid memory address or nil pointer dereference".

(** [Connection.readHeaders]. *)
Definition readHeaders (fuel : nat) (c : Connection) (w : World) : option outcome :=
  match reader c with
  | None => Some (Panic nilReader, c, w)
  | Some rd =>
      match force fuel w rd with
      | None => None
      | Some r =>
          match readHeadersLoop (unicodeLower w) fuel r false with
          | None => None
          | Some (Some e, r, _) => Some (Return (Some e), setReader c (Some (readerPlain r)), w)
          | Some (None, r, isGZip) =>
              let c := setReader c (Some (readerPlain r)) in
              let c :=
                if GZip (conf c) && negb isGZip then setConf c (setGZip (conf c) false)
                else c in
              Some (Return None, c, w)
          end
      end
  end.

(** The check at the end of each turn of the two body loops: [true] when
    the TTL is set and the time since [start] exceeds it. *)
Definition expired (ttl start : Z) (w : World) : bool * World :=
  if 0 <? ttl then
    let '(now, w) := Now w in
    (ttl <? now - start, w)
  else (false, w).

(** The loop of [readData]. *)
Fixpoint readDataLoop (fuel : nat) (ttl start : Z) (r : Reader) (w : World)
  : option (option error * Reader * World) :=
  match fuel with
  | O => None
  | S fuel' =>
      let '(line, err, r) := ReadLine r in
      match err with
      | Some e => Some (Some e, r, w)
      | None =>
          let w := Println w line in
          let '(stop, w) := expired ttl start w in
          if stop then Some (None, r, w)
          else readDataLoop fuel' ttl start r w
      end
  end.

(** [Connection.readData]. *)
Definition readData (fuel : nat) (c : Connection) (w : World) : option outcome :=
  match reader c with
  | None => Some (Panic nilReader, c, w)
  | Some rd =>
      match force fuel w rd with
      | None => None
      | Some r =>
          let z : error + Reader :=
            if GZip (conf c) then
              match gunzip w (pending r) with
              | inl e => inl e
              | inr (decoded, zerr) =>
                  inr {| pending := decoded; atEnd := zerr; segment := segment r |}
              end
            else inr r in
          match z with
          | inl e => Some (Return (Some e), setReader c (Some (readerPlain r)), w)
          | inr r =>
              let '(start, w) := Now w in
              match readDataLoop fuel (TTL (conf c)) start r w with
              | None => None
              | Some (err, r, w) => Some (Return err, setReader c (Some (readerPlain r)), w)
              end
          end
      end
  end.

(** The payloads copied into [buffer] so far, one for each chunk, and
    whether [decompressor] is set. *)
Record Gz := { payloads : list bytes; opened : bool }.

(** One turn of the loop of [readChunkedData], up to the check of the TTL:
    the result when the turn returns, or else the value of [err] after the
    copy, with the reader, the gzip state and the world. *)
Definition readChunk (gzip : bool) (r : Reader) (gz : Gz) (w : World)
  : result * Reader * World + option error * Reader * Gz * World :=
  let '(line, err, r) := ReadLine r in
  match err with
  | Some e => inl (Return (Some e), r, w)
  | None =>
      let '(size, err) := decodeHexString line in
      match err with
      | Some _ =>
          let str := ("Expected hex, got " ++ string_of_list_ascii line)%string in
          inl (Return (Some (errors_New str)), r, w)
      | None =>
          if negb gzip then
            let '(writer, r, err) := CopyN {| Writer := stdout w |} r (int64 size) in
            inr (err, r, gz, setStdout w (Writer writer))
          else
            let '(buffer, r, err) := CopyN {| content := [] |} r (int64 size) in
            match err with
            | Some e => inl (Return (Some e), r, w)
            | None =>
                let gz' := {| payloads := payloads gz ++ [content buffer]; opened := true |} in
                match (if opened gz then None else gzipOpen w (content buffer)) with
                | Some _ => inl (Panic nilReader, r, w)
                | None =>
                    match inflate w (payloads gz') with
                    | inl e => inl (Return (Some e), r, w)
                    | inr data =>
                        let writer := (Write {| Writer := stdout w |} data).1 in
                        inr (None, r, gz', setStdout w (Writer writer))
                    end
                end
            end
      end
  end.

(** The loop of [readChunkedData]. *)
Fixpoint readChunkedLoop (fuel : nat) (gzip : bool) (ttl start : Z)
    (r : Reader) (gz : Gz) (w : World) : option (result * Reader * World) :=
  match fuel with
  | O => None
  | S fuel' =>
      match readChunk gzip r gz w with
      | inl res => Some res
      | inr (err, r, gz, w) =>
          let '(stop, w) := expired ttl start w in
          if stop then Some (Return None, r, w)
          else
            match err with
            | Some e => Some (Return (Some e), r, w)
            | None => readChunkedLoop fuel' gzip ttl start r gz w
            end
      end
  end.

(** [Connection.readChunkedData]. *)
Definition readChunkedData (fuel : nat) (c : Connection) (w : World) : option outcome :=
  let '(start, w) := Now w in
  match reader c with
  | None => Some (Panic nilReader, c, w)
  | Some rd =>
      match force fuel w rd with
      | None => None
      | Some r =>
          match readChunkedLoop fuel (GZip (conf c)) (TTL (conf c)) start r
                  {| payloads := []; opened := false |} w with
          | None => None
          | Some (res, r, w) => Some (res, setReader c (Some (readerPlain r)), w)
          end
      end
  end.

(** The deferred [c.conn.Close()]. *)
Definition closing (o : outcome) : outcome :=
  let '(res, c, w) := o in
  (res, setConn c (Close <$> conn c), w).

(** [Connection.Read]. *)
Definition Read (fuel : nat) (c : Connection) (w : World) : option outcome :=
  let '(res, c, w) := connect c w in
  match res, conn c with
  | Return None, Some k =>
      let c :=
        setWriter c (Some (match WriterListener (conf c) with
                           | Some _ => toConnAndListener
                           | None => toConn
                           end)) in
      let c :=
        setReader c (Some (match ReaderListener (conf c) with
                           | Some l => readerListening {| lreader := k; listener := l |}
                           | None =>
                               readerPlain {| pending := incoming k; atEnd := endError k;
                                              segment := segments w |}
                           end)) in
      let '(sent, c, w) := request c w in
      match sent with
      | Panic msg => Some (closing (Panic msg, c, w))
      | Return _ =>
          match readHeaders fuel c w with
          | None => None
          | Some (Return None, c, w) =>
              closing <$> (if Chunked (conf c) then readChunkedData fuel c w
                           else readData fuel c w)
          | Some o => Some (closing o)
          end
      end
  | _, _ => Some (res, c, w)
  end.

End twstream.

(** ** Concrete surroundings for the examples *)

Module fixtures.

Import twstream.

Definition crlf : string := String CR (String LF "").
Definition lf : string := String LF "".

Definition B (s : string) : bytes := list_ascii_of_string s.

(** A request line standing for the bytes of [req.Write]. *)
Definition wireLine (req : oauth1a.Request) (proxy : bool) : bytes :=
  B (oauth1a.Method req ++ " " ++ oauth1a.Path (oauth1a.Url req) ++ " HTTP/1.1" ++ crlf ++ crlf).

(** A peer that sends [data] and then ends the stream; writes to it end
    with [werr]. *)
Definition peerSending (data : string) (werr : option error) : Conn :=
  {| incoming := B data; endError := io_EOF; writeError := werr; sent := []; closes := 0 |}.

(** A world where the dial succeeds, every copy comes in one slice, the
    clock advances by [step] nanoseconds between two readings, and no
    stream is gzip.  The examples send ASCII only, so that the lowering of
    other strings is never asked for. *)
Definition world (k : Conn) (step : Z) : World :=
  {| dialError := None; peer := k; newRequestError := None; wire := wireLine;
     signEnv := {| oauth1a.nonceTime := "2012-03-04 05:06:07";
                   oauth1a.stampTime := "2012-03-04 05:06:08";
                   oauth1a.encodeOrder := oauth1a.rangeSorted;
                   oauth1a.headerOrder := oauth1a.rangeSorted |};
     segments := λ _, []; clock := λ k, (step * Z.of_nat k)%Z; ticks := 0;
     stdout := {| written := [] |};
     gunzip := λ _, inl (foreign "gzip: invalid header");
     gzipOpen := λ _, Some (foreign "gzip: invalid header");
     inflate := λ _, inl (foreign "gzip: invalid header");
     unicodeLower := λ s, s |}.

(** The configuration of the test: GET on the streaming URL. *)
Definition config (chunked : bool) (ttl : Z) (readerListener : option Log) : Configuration :=
  {| Method := "GET";
     URL := {| oauth1a.Scheme := "https"; oauth1a.Host := "stream.twitter.com";
               oauth1a.Path := "/1/statuses/filter.json"; oauth1a.Query := ∅ |};
     Chunked := chunked; Proxy := ""; WriterListener := None;
     ReaderListener := readerListener; TTL := ttl; GZip := false |}.

Definition credentials : Credentials :=
  {| Token := "token"; Secret := "secret"; ConsumerKey := "consumerkey";
     ConsumerSecret := "consumersecret"; Username := "username" |}.

Definition connection (chunked : bool) (ttl : Z) : Connection :=
  NewConnection (config chunked ttl None) credentials.

(** A reader over [data], after which the stream ends; [sizes] are the
    slices of every copy. *)
Definition readerOver (data : string) (sizes : list nat) : Reader :=
  {| pending := B data; atEnd := io_EOF; segment := λ _, sizes |}.

(** A connection that is about to read [data] from the peer. *)
Definition reading (c : Connection) (data : string) : Connection :=
  setReader c (Some (readerPlain (readerOver data []))).

Definition requestingGZip (c : Connection) : Connection :=
  setConf c (setGZip (conf c) true).

Definition noGzip : Gz := {| payloads := []; opened := false |}.

Definition quiet : World := world (peerSending "" None) 1.

(** The connection as [Read] has set it up when it calls [request]. *)
Definition requesting (c : Connection) (k : Conn) : Connection :=
  setReader (setWriter (setConn c (Some k)) (Some toConn))
    (Some (readerPlain {| pending := incoming k; atEnd := endError k; segment := λ _, [] |})).

(** A response: a status line, the blank line, and a body. *)
Definition response (body : string) : string :=
  "HTTP/1.1 200 OK" ++ crlf ++ crlf ++ body.

(** A response with one header field, longer than the buffer of the
    reader (4096 bytes): the name [X-Pad] and a value that is [n] letters
    followed by the text [tail].  It has no other field. *)
Fixpoint filler (n : nat) : string :=
  match n with
  | O => ""
  | S n' => String "a" (filler n')
  end.

Definition paddedResponse (n : nat) (tail : string) : string :=
  "HTTP/1.1 200 OK" ++ crlf ++ "X-Pad: " ++ filler n ++ tail ++ crlf ++ crlf.

(** What [readHeaders] shows: its result and the GZip flag it leaves. *)
Definition gzipAfter (o : option outcome) : option (result * bool) :=
  o ≫= λ '(res, c, _), Some (res, GZip (conf c)).

(** What an outcome shows: the result, the writes on the standard output,
    and the writes the peer received. *)
Definition observe (o : option outcome) : option (result * list string * nat) :=
  o ≫= λ '(res, c, w),
    Some (res, string_of_list_ascii <$> written (stdout w),
          from_option (λ k, length (sent k)) O (conn c)).

End fixtures.
(** ** Notions used to state the properties of the streaming client *)

Module notions.

Import twstream.

(** The lines [readHeaders] reads: up to the first empty line, which is a
    blank line or the end of the stream. *)
Fixpoint headerLinesUpTo (fuel : nat) (r : Reader) : list bytes :=
  match fuel with
  | O => []
  | S fuel' =>
      let '(line, _, r') := ReadLine r in
      match line with
      | [] => [line]
      | _ :: _ => line :: headerLinesUpTo fuel' r'
      end
  end.

Definition headerLines (r : Reader) : list bytes :=
  headerLinesUpTo (S (length (pending r))) r.

(** The lines of a stream, as [ReadLine] cuts them, up to its end. *)
Fixpoint linesUpTo (fuel : nat) (r : Reader) : list bytes :=
  match fuel with
  | O => []
  | S fuel' =>
      match ReadLine r with
      | (line, None, r') => line :: linesUpTo fuel' r'
      | (_, Some _, _) => []
      end
  end.

Definition allLines (r : Reader) : list bytes :=
  linesUpTo (S (length (pending r))) r.

(** The header of a response as HTTP has it.  The lines end with LF, a CR
    before the LF is not part of the line, and a line is as long as it is;
    the header fields are the lines after the status line, up to the first
    empty line. *)
Definition stripCR (line : bytes) : bytes :=
  match reverse line with
  | c :: rest => if Ascii.eqb c CR then reverse rest else line
  | [] => line
  end.

Fixpoint linesFrom (data : bytes) (seen : bytes) : list bytes :=
  match data with
  | [] => [stripCR (reverse seen)]
  | c :: rest =>
      if Ascii.eqb c LF then stripCR (reverse seen) :: linesFrom rest []
      else linesFrom rest (c :: seen)
  end.

Fixpoint upToBlank (lines : list bytes) : list bytes :=
  match lines with
  | [] => []
  | [] :: _ => []
  | line :: rest => line :: upToBlank rest
  end.

Definition headerFields (data : bytes) : list bytes :=
  upToBlank (tail (linesFrom data [])).

(** A field is a name, a colon and a value. *)
Fixpoint nameAndValue (line : bytes) : option (bytes * bytes) :=
  match line with
  | [] => None
  | c :: rest =>
      if Ascii.eqb c ":" then Some ([], rest)
      else
        match nameAndValue rest with
        | Some (name, value) => Some (c :: name, value)
        | None => None
        end
  end.

(** Names and codings are compared without regard to the case of the
    letters a to z. *)
Definition capital (c : ascii) : ascii :=
  let n := N_of_ascii c in
  if ((97 <=? n) && (n <=? 122))%N then ascii_of_N (n - 32) else c.

Definition sameLetters (a b : bytes) : bool :=
  bool_decide (capital <$> a = capital <$> b).

Fixpoint mentions (word value : bytes) : bool :=
  match value with
  | [] => false
  | _ :: rest => sameLetters (take (length word) value) word || mentions word rest
  end.

(** The field Content-Encoding, with a value that mentions gzip. *)
Definition contentEncodingGzip (field : bytes) : bool :=
  match nameAndValue field with
  | Some (name, value) =>
      sameLetters name (list_ascii_of_string "Content-Encoding")
      && mentions (list_ascii_of_string "gzip") value
  | None => false
  end.

(** The response declares a gzip content encoding. *)
Definition declaresGzipEncoding (data : bytes) : bool :=
  existsb contentEncodingGzip (headerFields data).

(** The test [readHeaders] makes on what [ReadLine] returns. *)
Definition gzipHeader (unicode : string → string) (line : bytes) : bool :=
  declaresGzip (gostd.ToLower unicode (string_of_list_ascii line)).

(** The characters 0-9, a-f and A-F. *)
Definition isHexDigit (c : ascii) : bool :=
  let c := code c in
  ((48 <=? c) && (c <=? 57) || (97 <=? c) && (c <=? 102) || (65 <=? c) && (c <=? 70))%Z.

Definition digitValue (c : ascii) : Z :=
  let c := code c in
  (if (48 <=? c) && (c <=? 57) then c - 48
   else if (97 <=? c) && (c <=? 102) then c - 97 + 10
   else c - 65 + 10)%Z.

(** The number a line of hexadecimal digits denotes. *)
Definition hexValue (line : bytes) : Z :=
  fold_left (λ acc c, acc * 16 + digitValue c)%Z line 0%Z.

(** The slices a [NonEmptyWriter] lets through. *)
Definition passes (p : bytes) : bool :=
  negb (bool_decide (p = [])) && negb (bool_decide (p = CRLF)).

End notions.
(** ** Notions used to state further properties of the signer *)

Module signer_notions.

Import gostd oauth1a.

(** Every byte of [s] satisfies [P]. *)
Fixpoint allBytes (P : ascii → bool) (s : string) : bool :=
  match s with
  | EmptyString => true
  | String c rest => P c && allBytes P rest
  end.

(** The bytes a percent-encoded string is made of: the unreserved set and
    the percent sign. *)
Definition encoded (c : ascii) : bool := unreserved c || Ascii.eqb c "%".

(** The bytes [Rfc3986Escape] gives two digits to. *)
Definition high (c : ascii) : bool := (16 <=? byteval c)%N.

Definition lowerHex (c : ascii) : bool :=
  ((48 <=? byteval c) && (byteval c <=? 57) || (97 <=? byteval c) && (byteval c <=? 102))%N.

(** The value of an upper-case hexadecimal digit. *)
Definition unhex (c : ascii) : option N :=
  let n := byteval c in
  if ((48 <=? n) && (n <=? 57))%N then Some (n - 48)%N
  else if ((65 <=? n) && (n <=? 70))%N then Some (n - 55)%N
  else None.

(** The usual percent-decoding: a percent sign and two upper-case digits
    stand for a byte, any other byte for itself; [None] on a percent sign
    that two digits do not follow. *)
Fixpoint unescape (s : string) : option string :=
  match s with
  | EmptyString => Some EmptyString
  | String c rest =>
      if Ascii.eqb c "%" then
        match rest with
        | String h (String l rest') =>
            match unhex h, unhex l, unescape rest' with
            | Some hi, Some lo, Some out => Some (String (ascii_of_N (16 * hi + lo)) out)
            | _, _, _ => None
            end
        | _ => None
        end
      else
        match unescape rest with
        | Some out => Some (String c out)
        | None => None
        end
  end.

(** The first values of a [url.Values]: [value[0]] for every key. *)
Definition firsts (vals : Values) : gmap string string := omap head vals.

(** The map literal at the head of [GetOAuthParams], with the token when
    there is one. *)
Definition protocolParams (clientConfig : ClientConfig) (userConfig : UserConfig)
    (nonce timestamp : string) : gmap string string :=
  let base : gmap string string :=
    <["oauth_version" := "1.0"]>
    (<["oauth_timestamp" := timestamp]>
    (<["oauth_signature_method" := "HMAC-SHA1"]>
    (<["oauth_nonce" := nonce]>
    (<["oauth_consumer_key" := ConsumerKey clientConfig]> ∅)))) in
  if negb (String.eqb (GetToken userConfig).1 "") then
    <["oauth_token" := (GetToken userConfig).1]> base
  else base.

(** Bytes of the string [encodeParameters] hands to [url.QueryEscape]. *)
Definition inner (c : ascii) : bool :=
  encoded c || Ascii.eqb c "=" || Ascii.eqb c "&".

End signer_notions.

(** ** oauth1a/oauth1a.go: the token exchange *)

Module handshake.

Import gostd oauth1a.

(** [os.Error] values: those made by [os.NewError], and those of the HTTP
    library. *)
Inductive Error : Type :=
  | NewError (text : string)
  | libraryError (text : string).

(** [Values.Get]: the first value of the key, or the empty string. *)
Definition Get (params : Values) (key : string) : string :=
  match params !! key with
  | Some (v :: _) => v
  | _ => ""
  end.

(** The parts of [http.Response] the service reads: the status, and the
    outcome of [ioutil.ReadAll(response.Body)], with the body given as the
    values [http.ParseQuery] finds in it. *)
Record Response := {
  StatusCode : Z;
  Status : string;
  Body : Error + Values
}.

(** The [Signer] interface: the request as [Sign] leaves it, and its
    error. *)
Definition Signer : Type :=
  Request → ClientConfig → UserConfig → Request * option Error.

Record Service := {
  RequestURL : string;
  AuthorizeURL : string;
  AccessURL : string;
  Config : ClientConfig;
  Sign : Signer
}.

(** [http.Client]: the answer of [Do] to a request, and the requests it
    was given. *)
Record Client := {
  answer : Request → Error + Response;
  requests : list Request
}.

Definition Do (client : Client) (request : Request) : Client * (Error + Response) :=
  ({| answer := answer client; requests := requests client ++ [request] |},
   answer client request).

(** [Service.Send]. *)
Definition Send (s : Service) (request : Request) (userConfig : UserConfig)
    (client : Client) : Client * (option Response * option Error) :=
  let '(request, err) := Sign s request (Config s) userConfig in
  match err with
  | Some e => (client, (None, Some e))
  | None =>
      let '(client, res) := Do client request in
      match res with
      | inl e => (client, (None, Some e))
      | inr response =>
          if negb (StatusCode response =? 200)%Z then
            (client, (None, Some (NewError ("Endpoint response: " ++ Status response))))
          else (client, (Some response, None))
      end
  end.

Definition setAccess (c : UserConfig) (key secret : string) (values : Values) : UserConfig :=
  {| RequestTokenSecret := RequestTokenSecret c; RequestTokenKey := RequestTokenKey c;
     AccessTokenSecret := secret; AccessTokenKey := key;
     Verifier := Verifier c; AccessValues := values |}.

Definition setRequest (c : UserConfig) (key secret : string) : UserConfig :=
  {| RequestTokenSecret := secret; RequestTokenKey := key;
     AccessTokenSecret := AccessTokenSecret c; AccessTokenKey := AccessTokenKey c;
     Verifier := Verifier c; AccessValues := AccessValues c |}.

(** [Service.parseAccessToken]: the user configuration as the call leaves
    it, and the error. *)
Definition parseAccessToken (response : Response) (userConfig : UserConfig)
  : UserConfig * option Error :=
  match Body response with
  | inl e => (userConfig, Some e)
  | inr params =>
      let tokenKey := Get params "oauth_token" in
      let tokenSecret := Get params "oauth_token_secret" in
      if String.eqb tokenKey "" || String.eqb tokenSecret "" then
        (userConfig, Some (NewError "No token or secret found"))
      else (setAccess userConfig tokenKey tokenSecret params, None)
  end.

(** [Service.GetAuthorizeUrl]; [http.URLEscape] is the query escaping.  The
    body spells the field [s.AuthorizeUrl]; it is the [AuthorizeURL] of the
    structure. *)
Definition GetAuthorizeUrl (s : Service) (userConfig : UserConfig) : string * option Error :=
  if String.eqb (RequestTokenKey userConfig) ""
     || String.eqb (RequestTokenSecret userConfig) "" then
    ("", Some (NewError "No configured request token"))
  else
    let token := QueryEscape (RequestTokenKey userConfig) in
    (AuthorizeURL s ++ "?oauth_token=" ++ token, None).

(** [Service.parseRequestToken]. *)
Definition parseRequestToken (response : Response) (userConfig : UserConfig)
  : UserConfig * option Error :=
  match Body response with
  | inl e => (userConfig, Some e)
  | inr params =>
      let tokenKey := Get params "oauth_token" in
      let tokenSecret := Get params "oauth_token_secret" in
      if String.eqb tokenKey "" || String.eqb tokenSecret "" then
        (userConfig, Some (NewError "No token or secret found"))
      else
        let userConfig := setRequest userConfig tokenKey tokenSecret in
        if String.eqb (Get params "oauth_callback_confirmed") "false" then
          (userConfig, Some (NewError "OAuth callback not confirmed"))
        else (userConfig, None)
  end.

(** A response whose body holds the given values. *)
Definition answering (code : Z) (status : string) (values : Values) : Response :=
  {| StatusCode := code; Status := status; Body := inr values |}.

(** A user who has nothing yet. *)
Definition newUser : UserConfig :=
  {| RequestTokenSecret := ""; RequestTokenKey := "";
     AccessTokenSecret := ""; AccessTokenKey := "";
     Verifier := ""; AccessValues := ∅ |}.

End handshake.

(** ** Surroundings for the examples on the transport *)

Module transport_fixtures.

Import twstream fixtures.

(** A world where the dial fails. *)
Definition refusing : World :=
  {| dialError := Some (foreign "connection refused"); peer := peer quiet;
     newRequestError := None; wire := wireLine; signEnv := signEnv quiet;
     segments := segments quiet; clock := clock quiet; ticks := 0;
     stdout := {| written := [] |}; gunzip := gunzip quiet;
     gzipOpen := gzipOpen quiet; inflate := inflate quiet;
     unicodeLower := unicodeLower quiet |}.

(** The connection as [Read] has set it up when it calls [request], with a
    writer listener that has seen nothing yet. *)
Definition teeing : Connection :=
  setWriter
    (setConn
       (NewConnection
          (setWriterListener (config false 0 None) (Some {| written := [] |}))
          credentials)
       (Some (peerSending "" None)))
    (Some toConnAndListener).

End transport_fixtures.

(** * Properties *)

(** ** Test vectors of the cryptographic functions *)

Example sha1_abc :
  crypto.hexLower (crypto.sha1 (crypto.bytesOf "abc"))
  = "a9993e364706816aba3e25717850c26c9cd0d89d".
Proof. vm_compute. reflexivity. Qed.

Example hmac_sha1_rfc2202_2 :
  crypto.hexLower (crypto.hmac_sha1 (crypto.bytesOf "Jefe")
                     (crypto.bytesOf "what do ya want for nothing?"))
  = "effcdf6ae5eb2fa2d27416d5f184df9c259a7c79".
Proof. vm_compute. reflexivity. Qed.

Example base64_foobar :
  crypto.base64 (crypto.bytesOf "fooba") = "Zm9vYmE=".
Proof. vm_compute. reflexivity. Qed.


(** ** The code on small inputs *)

Example Rfc3986Escape_space : oauth1a.Rfc3986Escape "a b~" = "a%20b~".
Proof. reflexivity. Qed.

(** The two bytes of a two-byte character give two escapes. *)
Example Rfc3986Escape_two_bytes :
  oauth1a.Rfc3986Escape (String "195" (String "169" "")) = "%C3%A9".
Proof. reflexivity. Qed.

Example Rfc3986Escape_tab : oauth1a.Rfc3986Escape (String "009" "") = "%9".
Proof. reflexivity. Qed.

Example QueryEscape_space_slash : gostd.QueryEscape "a b/c" = "a+b%2Fc".
Proof. reflexivity. Qed.

Example sort_Strings_bytewise :
  gostd.sort_Strings ["b"; "a"; "Z"; "ab"; "a_"] = ["Z"; "a"; "a_"; "ab"; "b"].
Proof. vm_compute. reflexivity. Qed.

Example encodeParameters_sorted :
  oauth1a.encodeParameters oauth1a.rangeReversed
    (oauth1a.insertAll [("b", "2"); ("a", "1 x")])
  = "a%3D1%2520x%26b%3D2".
Proof. vm_compute. reflexivity. Qed.

Example decodeHexString_f : twstream.decodeHexString (fixtures.B "f") = (15%Z, None).
Proof. reflexivity. Qed.

Example decodeHexString_mixed : twstream.decodeHexString (fixtures.B "1fF") = (511%Z, None).
Proof. reflexivity. Qed.

Example decodeHexString_empty : twstream.decodeHexString [] = (0%Z, None).
Proof. reflexivity. Qed.

Example decodeHexString_bad :
  twstream.decodeHexString (fixtures.B "1g")
  = (0%Z, Some (twstream.errors_New "Invalid hex")).
Proof. reflexivity. Qed.

(** Seventeen digits: the size wraps around 2^64. *)
Example decodeHexString_wraps :
  twstream.decodeHexString (fixtures.B "1000000000000000f") = (15%Z, None).
Proof. vm_compute. reflexivity. Qed.

Example ReadLine_crlf :
  twstream.ReadLine (fixtures.readerOver ("one" ++ fixtures.crlf ++ "two") [])
  = (fixtures.B "one", None, fixtures.readerOver "two" []).
Proof. vm_compute. reflexivity. Qed.

Example ReadLine_last_line :
  twstream.ReadLine (fixtures.readerOver "two" [])
  = (fixtures.B "two", None, fixtures.readerOver "" []).
Proof. vm_compute. reflexivity. Qed.

Example ReadLine_end :
  twstream.ReadLine (fixtures.readerOver "" [])
  = ([], Some twstream.io_EOF, fixtures.readerOver "" []).
Proof. vm_compute. reflexivity. Qed.

Example declaresGzip_yes :
  notions.gzipHeader (λ s, s) (fixtures.B "Content-Encoding: deflate, GZip") = true.
Proof. vm_compute. reflexivity. Qed.

Example declaresGzip_other_header :
  notions.gzipHeader (λ s, s) (fixtures.B "Content-Type: application/gzip") = false.
Proof. vm_compute. reflexivity. Qed.

Example declaresGzip_other_coding :
  notions.gzipHeader (λ s, s) (fixtures.B "Content-Encoding: deflate") = false.
Proof. vm_compute. reflexivity. Qed.

(** A payload of fifteen bytes that the reader delivers as five bytes and
    then ten reaches the output as two segments. *)
Example chunk_in_two_slices :
  (λ o, match o with
        | inr (_, _, _, w) => string_of_list_ascii <$> twstream.written (twstream.stdout w)
        | inl _ => []
        end)
    (twstream.readChunk false
       (fixtures.readerOver ("f" ++ fixtures.crlf ++ "0123456789abcde" ++ fixtures.crlf) [5%nat])
       fixtures.noGzip fixtures.quiet)
  = ["01234"; "56789abcde"].
Proof. vm_compute. reflexivity. Qed.

(** The exchange of the test: the response holds one line and no header;
    the line is taken for a header, and the body loop meets the end. *)
Example Read_test_exchange :
  fixtures.observe
    (twstream.Read 64 (fixtures.connection false 0)
       (fixtures.world (fixtures.peerSending ("{foo: bar}" ++ fixtures.crlf) None) 1))
  = Some (twstream.Return (Some twstream.io_EOF), [], 1%nat).
Proof. vm_compute. reflexivity. Qed.

(** A TTL of one nanosecond, exceeded at the first check: one line of two
    is printed, and the result is nil. *)
Example Read_ttl_expired :
  fixtures.observe
    (twstream.Read 64 (fixtures.connection false 1)
       (fixtures.world
          (fixtures.peerSending
             (fixtures.response ("tweet one" ++ fixtures.crlf ++ "tweet two" ++ fixtures.crlf))
             None) 5))
  = Some (twstream.Return None, ["tweet one" ++ fixtures.lf], 1%nat).
Proof. vm_compute. reflexivity. Qed.

Example Read_chunked :
  fixtures.observe
    (twstream.Read 64 (fixtures.connection true 0)
       (fixtures.world
          (fixtures.peerSending
             (fixtures.response
                ("f" ++ fixtures.crlf ++ "0123456789abcde" ++ fixtures.crlf ++
                 "2" ++ fixtures.crlf ++ fixtures.crlf ++ fixtures.crlf ++
                 "3" ++ fixtures.crlf ++ "xyz" ++ fixtures.crlf))
             None) 1))
  = Some (twstream.Return (Some twstream.io_EOF), ["0123456789abcde"; "xyz"], 1%nat).
Proof. vm_compute. reflexivity. Qed.

Example Read_dial_failure :
  (twstream.Read 0 (fixtures.connection false 0)
     {| twstream.dialError := Some (twstream.foreign "dial tcp: connection refused");
        twstream.peer := fixtures.peerSending "" None;
        twstream.newRequestError := None; twstream.wire := fixtures.wireLine;
        twstream.signEnv := twstream.signEnv fixtures.quiet;
        twstream.segments := λ _, []; twstream.clock := λ _, 0%Z; twstream.ticks := 0;
        twstream.stdout := {| twstream.written := [] |};
        twstream.gunzip := twstream.gunzip fixtures.quiet;
        twstream.gzipOpen := twstream.gzipOpen fixtures.quiet;
        twstream.inflate := twstream.inflate fixtures.quiet;
        twstream.unicodeLower := λ s, s |}) ≫= (λ o, Some o.1.1)
  = Some (twstream.Return (Some (twstream.foreign "dial tcp: connection refused"))).
Proof. reflexivity. Qed.
(** ** Properties of the signer *)

Section string_order.
Import gostd.

Lemma string_compare_refl (s : string) : String.compare s s = Eq.
Proof.
  induction s as [|c s IH]; simpl; [done|].
  unfold Ascii.compare. by rewrite N.compare_refl.
Qed.

Lemma string_compare_lt_trans (s1 s2 s3 : string) :
  String.compare s1 s2 = Lt → String.compare s2 s3 = Lt → String.compare s1 s3 = Lt.
Proof.
  revert s2 s3. induction s1 as [|a s1 IH]; intros [|b s2] [|c s3]; simpl; try done.
  unfold Ascii.compare.
  destruct (N.compare_spec (N_of_ascii a) (N_of_ascii b)) as [E1|L1|G1]; try done;
    destruct (N.compare_spec (N_of_ascii b) (N_of_ascii c)) as [E2|L2|G2]; try done;
    intros H1 H2.
  - rewrite E1, E2, N.compare_refl. eauto.
  - rewrite E1. by apply N.compare_lt_iff in L2 as ->.
  - rewrite <- E2. by apply N.compare_lt_iff in L1 as ->.
  - assert (N_of_ascii a < N_of_ascii c)%N as L by lia.
    by apply N.compare_lt_iff in L as ->.
Qed.

#[global] Instance strLe_total : Total strLe.
Proof. intros a b. apply String.leb_total. Qed.

#[global] Instance strLe_antisymm : AntiSymm (=) strLe.
Proof. intros a b. apply String.leb_antisym. Qed.

#[global] Instance strLe_trans : Transitive strLe.
Proof.
  intros a b c. unfold strLe, String.leb.
  destruct (String.compare a b) eqn:Hab; try done;
    destruct (String.compare b c) eqn:Hbc; try done; intros _ _.
  - apply String.compare_eq_iff in Hab, Hbc. subst. by rewrite string_compare_refl.
  - apply String.compare_eq_iff in Hab. subst. by rewrite Hbc.
  - apply String.compare_eq_iff in Hbc. subst. by rewrite Hab.
  - by rewrite (string_compare_lt_trans _ _ _ Hab Hbc).
Qed.

(** [sort.Strings] depends on the multiset of keys only. *)
Lemma sort_Strings_perm (l1 l2 : list string) :
  l1 ≡ₚ l2 → sort_Strings l1 = sort_Strings l2.
Proof.
  intros Hp. unfold sort_Strings.
  apply (Sorted_unique strLe); try apply Sorted_merge_sort; try apply _.
  by rewrite !merge_sort_Permutation.
Qed.

Lemma sort_Strings_sorted (l : list string) : Sorted strLe (sort_Strings l).
Proof. apply Sorted_merge_sort; apply _. Qed.

Lemma sort_Strings_Permutation (l : list string) : sort_Strings l ≡ₚ l.
Proof. apply merge_sort_Permutation. Qed.

End string_order.

Section signer_properties.
Import gostd oauth1a.

Lemma rangeSorted_ok : RangeOrder_ok rangeSorted.
Proof. intros m. apply merge_sort_Permutation. Qed.

Lemma rangeReversed_ok : RangeOrder_ok rangeReversed.
Proof. intros m. unfold rangeReversed. rewrite reverse_Permutation. apply rangeSorted_ok. Qed.

Lemma insertAll_list_to_map (l : list (string * string)) :
  insertAll l = list_to_map (reverse l).
Proof.
  unfold insertAll. induction l as [|kv l IH] using rev_ind; [done|].
  by rewrite foldl_snoc, reverse_snoc, IH.
Qed.

(** With distinct keys the map does not depend on the order of the
    assignments. *)
Lemma insertAll_perm (l1 l2 : list (string * string)) :
  NoDup l1.*1 → l1 ≡ₚ l2 → insertAll l1 = insertAll l2.
Proof.
  intros Hnd Hp. rewrite !insertAll_list_to_map.
  apply list_to_map_proper.
  - by rewrite reverse_Permutation.
  - by rewrite !reverse_Permutation.
Qed.

(** The keys visited by any admissible [range], sorted, are the sorted keys
    of the map. *)
Lemma sorted_keys_range (rng1 rng2 : RangeOrder) (m : gmap string string) :
  RangeOrder_ok rng1 → RangeOrder_ok rng2 →
  sort_Strings (rng1 m).*1 = sort_Strings (rng2 m).*1.
Proof.
  intros H1 H2. apply sort_Strings_perm. by rewrite (H1 m), (H2 m).
Qed.

Lemma encodeParameters_range (rng1 rng2 : RangeOrder) (m : gmap string string) :
  RangeOrder_ok rng1 → RangeOrder_ok rng2 →
  encodeParameters rng1 m = encodeParameters rng2 m.
Proof.
  intros H1 H2. unfold encodeParameters.
  by rewrite (sorted_keys_range rng1 rng2 m H1 H2).
Qed.

(** [ParseForm] touches the form only. *)
Lemma ParseForm_frame (request : Request) :
  Method (ParseForm request) = Method request
  ∧ Url (ParseForm request) = Url request
  ∧ Header (ParseForm request) = Header request
  ∧ unparsed (ParseForm request) = None.
Proof. unfold ParseForm. by destruct (unparsed request) eqn:H. Qed.

Lemma ParseForm_Form (request : Request) :
  Form (ParseForm request)
  = match unparsed request with Some form => form | None => Form request end.
Proof. unfold ParseForm. by destruct (unparsed request). Qed.

Lemma byteIn_UNESCAPE_CHARS (c : ascii) : byteIn c UNESCAPE_CHARS = oauth1a.unreserved c.
Proof. destruct c as [[] [] [] [] [] [] [] []]; vm_compute; reflexivity. Qed.

(** What [Rfc3986Escape] emits for one byte: the byte itself when it is
    unreserved, otherwise a percent sign and the digits of [%X]: two from
    0x10 on, a single one below. *)
Lemma escapeByte_cases (c : ascii) :
  escapeByte c =
    if oauth1a.unreserved c then String c ""
    else if (byteval c <? 16)%N then
      String "%" (String (digitOf upperDigits (byteval c)) "")
    else
      String "%" (String (digitOf upperDigits (byteval c / 16))
                 (String (digitOf upperDigits (byteval c mod 16)) "")).
Proof. destruct c as [[] [] [] [] [] [] [] []]; vm_compute; reflexivity. Qed.

Lemma sha1_length (msg : list Z) : length (crypto.sha1 msg) = 20%nat.
Proof.
  unfold crypto.sha1.
  destruct (fold_left _ _ _) as [[[[a b] c] d] e]. reflexivity.
Qed.

Lemma hexLower_length (bs : list Z) :
  String.length (crypto.hexLower bs) = (2 * length bs)%nat.
Proof. induction bs as [|b bs IH]; simpl; [done|]. rewrite IH. lia. Qed.

(** A nonce made by [GenerateNonce] has forty characters. *)
Lemma GenerateNonce_length (now : string) : String.length (GenerateNonce now) = 40%nat.
Proof. unfold GenerateNonce. by rewrite hexLower_length, sha1_length. Qed.

End signer_properties.

(** ** The claims on the signer *)

(** C1.  On the fixture (consumer secret "consumersecret", token secret
    "secret", GET https://stream.twitter.com/1/statuses/filter.json, nonce
    "54321", timestamp "12345", token "token", consumer key "consumerkey")
    the signature is dG59sMu9QpDU4oJMGCjKEKGlVYU= and the header is the
    literal of the test when the [range] of [Sign] visits the parameters by
    increasing key; when it visits them in another order, which Go allows,
    the header is another string. *)
Theorem C1_fixture_header_depends_on_range_order :
  oauth1a.GetSignature "consumersecret" "secret"
    "GET&https%3A%2F%2Fstream.twitter.com%2F1%2Fstatuses%2Ffilter.json&oauth_consumer_key%3Dconsumerkey%26oauth_nonce%3D54321%26oauth_signature_method%3DHMAC-SHA1%26oauth_timestamp%3D12345%26oauth_token%3Dtoken%26oauth_version%3D1.0"
    = "dG59sMu9QpDU4oJMGCjKEKGlVYU="
  ∧ oauth1a.authorization
      (oauth1a.SignWith oauth1a.rangeSorted oauth1a.rangeSorted "54321" "12345"
         oauth1a.fixtureRequest oauth1a.fixtureClient oauth1a.fixtureUser)
    = Some [oauth1a.fixtureHeader]
  ∧ oauth1a.RangeOrder_ok oauth1a.rangeReversed
  ∧ oauth1a.authorization
      (oauth1a.SignWith oauth1a.rangeSorted oauth1a.rangeReversed "54321" "12345"
         oauth1a.fixtureRequest oauth1a.fixtureClient oauth1a.fixtureUser)
    ≠ Some [oauth1a.fixtureHeader].
Proof.
  split; [vm_compute; reflexivity|].
  split; [vm_compute; reflexivity|].
  split; [apply rangeReversed_ok|].
  vm_compute. discriminate.
Qed.

(** C2.  [Rfc3986Escape] works byte by byte; an unreserved byte is copied,
    a byte from 0x10 on outside the unreserved set becomes a percent sign
    and two upper-case digits, but a byte below 0x10 becomes a percent sign
    and ONE digit: a line feed is escaped as %A, not %0A. *)
Theorem C2_Rfc3986Escape_single_digit_below_16 :
  (∀ c rest, oauth1a.Rfc3986Escape (String c rest)
             = oauth1a.escapeByte c ++ oauth1a.Rfc3986Escape rest)
  ∧ (∀ c, oauth1a.escapeByte c =
          if oauth1a.unreserved c then String c ""
          else if (gostd.byteval c <? 16)%N then
            String "%" (String (gostd.digitOf gostd.upperDigits (gostd.byteval c)) "")
          else
            String "%" (String (gostd.digitOf gostd.upperDigits (gostd.byteval c / 16))
                       (String (gostd.digitOf gostd.upperDigits (gostd.byteval c mod 16)) "")))
  ∧ oauth1a.Rfc3986Escape (String "010"%char "") = "%A".
Proof.
  split; [reflexivity|]. split; [apply escapeByte_cases|]. reflexivity.
Qed.

(** C7.  For parameters with distinct names, the encoded and sorted
    parameter string is the same for every order in which the parameters
    are put into the map and every order in which [range] visits it: the
    keys it encodes are the names of the map in increasing byte-wise order
    of the raw names. *)
Theorem C7_encodeParameters_order_independent
    (l1 l2 : list (string * string)) (rng1 rng2 : oauth1a.RangeOrder) :
  NoDup l1.*1 → l1 ≡ₚ l2 →
  oauth1a.RangeOrder_ok rng1 → oauth1a.RangeOrder_ok rng2 →
  oauth1a.encodeParameters rng1 (oauth1a.insertAll l1)
  = oauth1a.encodeParameters rng2 (oauth1a.insertAll l2)
  ∧ ∃ keys,
      Sorted gostd.strLe keys ∧ keys ≡ₚ l1.*1
      ∧ oauth1a.encodeParameters rng1 (oauth1a.insertAll l1)
        = gostd.QueryEscape
            (gostd.Join
               ((λ key, oauth1a.Rfc3986Escape key ++ "=" ++
                        oauth1a.Rfc3986Escape (oauth1a.index (oauth1a.insertAll l1) key))
                  <$> keys) "&").
Proof.
  intros Hnd Hp H1 H2. split.
  - rewrite (insertAll_perm l1 l2 Hnd Hp). by apply encodeParameters_range.
  - exists (gostd.sort_Strings (rng1 (oauth1a.insertAll l1)).*1).
    split; [apply sort_Strings_sorted|]. split; [|reflexivity].
    rewrite sort_Strings_Permutation, (H1 _), insertAll_list_to_map.
    rewrite map_to_list_to_map by (by rewrite reverse_Permutation).
    by rewrite reverse_Permutation.
Qed.

Lemma C7_witness :
  oauth1a.encodeParameters oauth1a.rangeSorted
    (oauth1a.insertAll [("b", "2"); ("a", "1 x"); ("c", "3")])
  = oauth1a.encodeParameters oauth1a.rangeReversed
    (oauth1a.insertAll [("c", "3"); ("b", "2"); ("a", "1 x")]).
Proof.
  apply (C7_encodeParameters_order_independent
           [("b", "2"); ("a", "1 x"); ("c", "3")] [("c", "3"); ("b", "2"); ("a", "1 x")]).
  - apply (bool_decide_unpack _). vm_compute. exact I.
  - etrans; [apply perm_swap|]. etrans; [apply perm_skip, perm_swap|].
    etrans; [apply perm_swap|]. apply perm_skip, perm_swap.
  - apply rangeSorted_ok.
  - apply rangeReversed_ok.
Defined.
(** ** Properties of the streaming client *)

Section reader_properties.
Import twstream notions.
Local Open Scope nat_scope.

(** However deep the calls may go, a call of [listeningReader.Read] has
    not returned. *)
Lemma listeningReader_Read_diverges (fuel : nat) (r : listeningReader) (p : bytes) :
  listeningReader_Read fuel r p = None.
Proof. induction fuel as [|fuel IH]; cbn [listeningReader_Read]; [done|]. by rewrite IH. Qed.

Lemma bufSize_ge_2 : 2 ≤ bufSize.
Proof. unfold bufSize. lia. Qed.

Lemma dropCR_length (line : bytes) :
  length line - 1 ≤ length (dropCR line) ≤ length line.
Proof.
  unfold dropCR. destruct (last line) as [c|]; [|lia].
  destruct (Ascii.eqb c CR); [|lia]. rewrite length_take. lia.
Qed.

(** [ReadLine] fails only on an exhausted reader, with the error of the
    source, and then leaves the reader as it is. *)
Lemma ReadLineSized_error (size : nat) (r : Reader) line e r' :
  ReadLineSized size r = (line, Some e, r') →
  pending r = [] ∧ line = [] ∧ e = atEnd r ∧ r' = r.
Proof.
  unfold ReadLineSized. destruct (pending r) as [|c data] eqn:Hp.
  - intros [= <- <- <-]. done.
  - destruct (indexLF _); [intros [=]|].
    destruct (_ <? _)%nat; intros [=].
Qed.

Lemma ReadLineSized_exhausted (size : nat) (r : Reader) :
  pending r = [] → ReadLineSized size r = ([], Some (atEnd r), r).
Proof. unfold ReadLineSized. by intros ->. Qed.

(** A successful [ReadLine] consumes at least one byte. *)
Lemma ReadLineSized_progress (size : nat) (r : Reader) line r' :
  2 ≤ size →
  ReadLineSized size r = (line, None, r') →
  length (pending r') < length (pending r)
  ∧ atEnd r' = atEnd r ∧ segment r' = segment r.
Proof.
  intros Hsize. unfold ReadLineSized. destruct (pending r) as [|c data] eqn:Hp; [intros [=]|].
  destruct (indexLF _) as [i|].
  - intros [= <- <-]. simpl. rewrite length_drop. split; [lia|done].
  - destruct (_ <? _)%nat eqn:Hlt.
    + intros [= <- <-]. simpl. split; [lia|done].
    + intros [= <- <-]. apply Nat.ltb_ge in Hlt. simpl in Hlt |- *.
      split; [|done]. rewrite length_drop.
      pose proof (dropCR_length (take size (c :: data))) as Hd.
      rewrite length_take in Hd. simpl in Hd. change (length (c :: data)) with (S (length data)). lia.
Qed.

Lemma ReadLine_cases (r : Reader) :
  (pending r = [] ∧ ReadLine r = ([], Some (atEnd r), r))
  ∨ (∃ line r', ReadLine r = (line, None, r')
       ∧ length (pending r') < length (pending r)
       ∧ atEnd r' = atEnd r ∧ segment r' = segment r).
Proof.
  destruct (ReadLine r) as [[line [e|]] r'] eqn:Hr.
  - left. apply ReadLineSized_error in Hr as (? & -> & -> & ->). done.
  - right. exists line, r'. split; [done|].
    exact (ReadLineSized_progress bufSize r line r' bufSize_ge_2 Hr).
Qed.

End reader_properties.

Section header_properties.
Import twstream notions.
Local Open Scope nat_scope.

Lemma string_of_bytes_empty (line : bytes) :
  String.eqb (string_of_list_ascii line) "" = bool_decide (line = []).
Proof. by destruct line. Qed.

Lemma gzipHeader_nil (u : string → string) : gzipHeader u [] = false.
Proof. reflexivity. Qed.

(** More fuel than bytes left does not change the lines read. *)
Lemma headerLinesUpTo_enough (f1 f2 : nat) (r : Reader) :
  length (pending r) < f1 → length (pending r) < f2 →
  headerLinesUpTo f1 r = headerLinesUpTo f2 r.
Proof.
  revert f2 r. induction f1 as [|f1 IH]; intros [|f2] r H1 H2; try lia.
  simpl. destruct (ReadLine_cases r) as [[_ ->]|(line & r' & -> & Hlt & _)]; [done|].
  destruct line as [|c line]; [done|]. f_equal. apply IH; lia.
Qed.

Lemma headerLines_fuel (fuel : nat) (r : Reader) :
  length (pending r) < fuel → headerLinesUpTo fuel r = headerLines r.
Proof. intros. apply headerLinesUpTo_enough; lia. Qed.

(** The loop of [readHeaders] always leaves by [break]: the flag it
    computes says whether a line read declares gzip. *)
Lemma readHeadersLoop_spec (u : string → string) (fuel : nat) (r : Reader) (g : bool) :
  length (pending r) < fuel →
  ∃ r', readHeadersLoop u fuel r g
        = Some (None, r', g || existsb (gzipHeader u) (headerLinesUpTo fuel r))
      ∧ length (pending r') ≤ length (pending r)
      ∧ atEnd r' = atEnd r ∧ segment r' = segment r.
Proof.
  revert r g. induction fuel as [|fuel IH]; intros r g Hlt; [lia|].
  cbn [readHeadersLoop headerLinesUpTo].
  destruct (ReadLine_cases r) as [[_ Hrd]|(line & r' & Hrd & Hlt' & He & Hs)];
    rewrite Hrd; cbv beta iota zeta; rewrite string_of_bytes_empty.
  - exists r. rewrite bool_decide_eq_true_2 by done. split; [|done].
    cbn [existsb]. rewrite gzipHeader_nil. change (declaresGzip _) with (gzipHeader u []).
    rewrite gzipHeader_nil. by rewrite !orb_false_r.
  - destruct line as [|c line].
    + exists r'. rewrite bool_decide_eq_true_2 by done. split; [|split; [lia|done]].
      cbn [existsb]. change (declaresGzip _) with (gzipHeader u []).
      rewrite gzipHeader_nil. by rewrite !orb_false_r.
    + rewrite bool_decide_eq_false_2 by done.
      change (declaresGzip _) with (gzipHeader u (c :: line)).
      destruct (IH r' (if gzipHeader u (c :: line) then true else g))
        as (r'' & -> & Hl & He' & Hs'); [lia|].
      exists r''. split.
      * do 2 f_equal. cbn [existsb]. destruct (gzipHeader u (c :: line)), g; done.
      * split; [lia|]. split; congruence.
Qed.

Lemma setGZip_same (cf : Configuration) : setGZip cf (GZip cf) = cf.
Proof. by destruct cf. Qed.

(** More fuel than bytes left does not change what the loop does. *)
Lemma readHeadersLoop_enough (u : string → string) (f1 f2 : nat) (r : Reader) (g : bool) :
  length (pending r) < f1 → length (pending r) < f2 →
  readHeadersLoop u f1 r g = readHeadersLoop u f2 r g.
Proof.
  revert f2 r g. induction f1 as [|f1 IH]; intros [|f2] r g H1 H2; try lia.
  cbn [readHeadersLoop].
  destruct (ReadLine_cases r) as [[_ Hrd]|(line & r' & Hrd & Hlt & _)];
    rewrite Hrd; cbv beta iota zeta; [done|].
  destruct (String.eqb _ _); [done|]. apply IH; lia.
Qed.

(** [readHeaders] on a reader over the bytes of the connection: the reader
    it leaves is the same for every sufficient fuel. *)
Lemma readHeaders_plain (c : Connection) (w : World) (r : Reader) :
  reader c = Some (readerPlain r) →
  ∃ r', (∀ fuel, length (pending r) < fuel →
         readHeaders fuel c w
         = Some (Return None,
                 setConf (setReader c (Some (readerPlain r')))
                   (setGZip (conf c)
                      (GZip (conf c)
                       && existsb (gzipHeader (unicodeLower w)) (headerLines r))),
                 w))
      ∧ length (pending r') ≤ length (pending r)
      ∧ atEnd r' = atEnd r ∧ segment r' = segment r.
Proof.
  intros Hr.
  destruct (readHeadersLoop_spec (unicodeLower w) (S (length (pending r))) r false)
    as (r' & Hloop & Hl & He & Hs); [lia|].
  exists r'. split; [|done]. intros fuel Hlt.
  unfold readHeaders. rewrite Hr. cbn [force].
  rewrite (readHeadersLoop_enough _ fuel (S (length (pending r)))) by lia.
  rewrite Hloop. rewrite headerLines_fuel by lia. cbn [orb].
  f_equal. f_equal. f_equal. cbn [conf setReader].
  destruct (GZip (conf c)) eqn:Hg, (existsb _ (headerLines r)); cbn [andb negb].
  - rewrite <- Hg, setGZip_same. by destruct c.
  - done.
  - rewrite <- Hg, setGZip_same. by destruct c.
  - rewrite <- Hg, setGZip_same. by destruct c.
Qed.

End header_properties.

Section copy_properties.
Import twstream notions.
Local Open Scope nat_scope.

(** The slices carved out of a payload make up the payload. *)
Lemma carve_concat (sizes : list nat) (payload : bytes) :
  concat (carve sizes payload) = payload.
Proof.
  revert payload. induction sizes as [|k ks IH]; intros [|c payload]; try done.
  - simpl. by rewrite app_nil_r.
  - cbn [carve]. destruct (_ || _).
    + simpl. by rewrite app_nil_r.
    + cbn [concat]. rewrite IH. apply take_drop.
Qed.

Lemma NonEmptyWriter_Write_spec {W} `{io_Writer W} (w : NonEmptyWriter W) (p : bytes) :
  Write w p =
    if passes p then
      (Build_NonEmptyWriter W (Write (Writer w) p).1, (Write (Writer w) p).2)
    else (w, (len p, None)).
Proof.
  unfold Write at 1, NonEmptyWriter_Write, passes.
  assert ((len p =? 0)%Z = bool_decide (p = [])) as ->.
  { unfold len. destruct p; [done|]. rewrite bool_decide_eq_false_2 by done.
    apply Z.eqb_neq. simpl. lia. }
  destruct (bool_decide (p = [])) eqn:He; [done|].
  destruct (bool_decide (p = CRLF)) eqn:Hc; cbn [orb andb negb].
  - apply bool_decide_eq_true in Hc as ->. reflexivity.
  - rewrite andb_false_r. by destruct (Write (Writer w) p).
Qed.

(** Written through a [NonEmptyWriter], the standard output receives the
    slices that are neither empty nor CR LF, and no write fails. *)
Lemma writeSlices_stdout (slices : list bytes) (log : Log) (done : nat) :
  writeSlices {| Writer := log |} slices done
  = ({| Writer := {| written := written log ++ List.filter passes slices |} |},
     done + length (concat slices), None).
Proof.
  revert log done. induction slices as [|p slices IH]; intros log done.
  - simpl. rewrite app_nil_r, Nat.add_0_r. by destruct log.
  - cbn [writeSlices List.filter concat]. rewrite NonEmptyWriter_Write_spec.
    destruct (passes p); cbn -[writeSlices]; rewrite Z.eqb_refl; cbn -[writeSlices];
      rewrite IH, length_app; cbn [written].
    + rewrite <- app_assoc. do 2 f_equal. lia.
    + do 2 f_equal. lia.
Qed.

Lemma drop_length_take {A} (k : nat) (l : list A) : drop (length (take k l)) l = drop k l.
Proof.
  rewrite length_take. destruct (decide (k ≤ length l)).
  - by rewrite Nat.min_l.
  - rewrite Nat.min_r by lia. rewrite !drop_ge; [done|lia|lia].
Qed.

(** A copy of [n > 0] bytes to the standard output behind a
    [NonEmptyWriter]. *)
Lemma CopyN_stdout (log : Log) (src : Reader) (n : Z) :
  (0 < n)%Z →
  CopyN {| Writer := log |} src n
  = ({| Writer := {| written := written log ++
           List.filter passes
             (carve (segment src (length (pending src))) (take (Z.to_nat n) (pending src))) |} |},
     seek src (drop (Z.to_nat n) (pending src)),
     if (len (take (Z.to_nat n) (pending src)) <? n)%Z then Some (atEnd src) else None).
Proof.
  intros Hn. unfold CopyN. rewrite (proj2 (Z.leb_gt n 0)) by done.
  rewrite writeSlices_stdout, carve_concat. cbn [Nat.add]. rewrite drop_length_take.
  by destruct (_ <? _)%Z.
Qed.

Lemma CopyN_nothing {W} `{io_Writer W} (dst : W) (src : Reader) (n : Z) :
  (n ≤ 0)%Z → CopyN dst src n = (dst, src, None).
Proof. intros Hn. unfold CopyN. by rewrite (proj2 (Z.leb_le n 0)). Qed.

End copy_properties.

Section chunk_properties.
Import twstream notions.
Local Open Scope Z_scope.

Lemma code_range (c : ascii) : 0 ≤ code c < 256.
Proof.
  unfold code. pose proof (N_ascii_bounded c) as Hb. lia.
Qed.

(** A character outside 0-9, a-f, A-F makes [decodeHexString] fail. *)
Lemma decodeHexLoop_invalid (line : bytes) (size : Z) :
  forallb isHexDigit line = false →
  decodeHexLoop line size = (0, Some (errors_New "Invalid hex")).
Proof.
  revert size. induction line as [|c line IH]; intros size; [done|].
  cbn [forallb decodeHexLoop]. unfold isHexDigit at 1.
  destruct ((48 <=? code c) && (code c <=? 57)); [cbn [orb andb]; auto|].
  destruct ((97 <=? code c) && (code c <=? 102)); [cbn [orb andb]; auto|].
  destruct ((65 <=? code c) && (code c <=? 70)); [cbn [orb andb]; auto|].
  done.
Qed.

Lemma u64_step (acc d : Z) : u64 (u64 acc * 16 + d) = u64 (acc * 16 + d).
Proof.
  unfold u64. rewrite <- Z.add_mod_idemp_l by lia.
  rewrite Z.mul_mod_idemp_l by lia. rewrite Z.add_mod_idemp_l by lia. done.
Qed.

(** On hexadecimal digits [decodeHexString] computes the value of the
    line, modulo 2^64. *)
Lemma decodeHexLoop_valid (line : bytes) (acc : Z) :
  forallb isHexDigit line = true →
  decodeHexLoop line (u64 acc)
  = (u64 (fold_left (λ acc c, acc * 16 + digitValue c) line acc), None).
Proof.
  revert acc. induction line as [|c line IH]; intros acc; [done|].
  cbn [forallb decodeHexLoop fold_left]. intros [Hc Hl]%andb_true_iff.
  pose proof (code_range c) as Hr.
  unfold isHexDigit in Hc. unfold digitValue.
  destruct ((48 <=? code c) && (code c <=? 57)) eqn:H1.
  { apply andb_true_iff in H1 as [?%Z.leb_le ?%Z.leb_le].
    unfold u8. rewrite (Z.mod_small (code c - 48)) by lia.
    rewrite u64_step. by apply IH. }
  destruct ((97 <=? code c) && (code c <=? 102)) eqn:H2.
  { apply andb_true_iff in H2 as [?%Z.leb_le ?%Z.leb_le].
    unfold u8. rewrite (Z.mod_small (code c - 97 + 10)) by lia.
    rewrite u64_step. by apply IH. }
  destruct ((65 <=? code c) && (code c <=? 70)) eqn:H3; [|done].
  apply andb_true_iff in H3 as [?%Z.leb_le ?%Z.leb_le].
  unfold u8. rewrite (Z.mod_small (code c - 65 + 10)) by lia.
  rewrite u64_step. by apply IH.
Qed.

Lemma decodeHexString_valid (line : bytes) :
  forallb isHexDigit line = true →
  decodeHexString line = (u64 (hexValue line), None).
Proof.
  intros H. unfold decodeHexString, hexValue.
  change (decodeHexLoop line 0) with (decodeHexLoop line (u64 0)).
  by apply decodeHexLoop_valid.
Qed.

Lemma int64_small (n : Z) : 0 ≤ n < 2 ^ 63 → int64 (u64 n) = n.
Proof.
  intros Hn. unfold u64, int64. rewrite Z.mod_small by lia.
  by rewrite (proj2 (Z.ltb_lt n (2 ^ 63))) by lia.
Qed.

Lemma setStdout_same (w : World) : setStdout w (stdout w) = w.
Proof. by destruct w. Qed.

Lemma seek_same (r : Reader) : seek r (pending r) = r.
Proof. by destruct r. Qed.

(** A turn of the chunked loop whose size line is malformed. *)
Lemma readChunk_malformed (gzip : bool) (r : Reader) (gz : Gz) (w : World) line r1 :
  ReadLine r = (line, None, r1) →
  forallb isHexDigit line = false →
  readChunk gzip r gz w
  = inl (Return (Some (errors_New ("Expected hex, got " ++ string_of_list_ascii line))), r1, w).
Proof.
  intros Hrd Hbad. unfold readChunk. rewrite Hrd. cbv beta iota zeta.
  unfold decodeHexString. by rewrite decodeHexLoop_invalid.
Qed.

(** A turn of the chunked loop, without gzip, whose size line is valid and
    whose payload is there. *)
Lemma readChunk_payload (r : Reader) (gz : Gz) (w : World) line r1 :
  ReadLine r = (line, None, r1) →
  forallb isHexDigit line = true →
  0 ≤ hexValue line < 2 ^ 63 →
  hexValue line ≤ len (pending r1) →
  readChunk false r gz w
  = inr (None, seek r1 (drop (Z.to_nat (hexValue line)) (pending r1)), gz,
         setStdout w {| written := written (stdout w) ++
           List.filter passes
             (carve (segment r1 (length (pending r1)))
                    (take (Z.to_nat (hexValue line)) (pending r1))) |}).
Proof.
  intros Hrd Hok Hn Hav. unfold readChunk. rewrite Hrd. cbv beta iota zeta.
  rewrite decodeHexString_valid by done. cbn [negb]. rewrite int64_small by done.
  destruct (decide (hexValue line = 0)) as [Hz|Hnz].
  - rewrite CopyN_nothing by lia. rewrite Hz. cbn [Writer].
    change (Z.to_nat 0) with O. rewrite take_0, drop_0.
    assert (carve (segment r1 (length (pending r1))) [] = []) as ->
      by (by destruct (segment r1 _)).
    cbn [List.filter]. rewrite app_nil_r, seek_same.
    by destruct w as [? ? ? ? ? ? ? ? []].
  - rewrite CopyN_stdout by lia. cbn [Writer].
    assert ((len (take (Z.to_nat (hexValue line)) (pending r1)) <? hexValue line) = false) as ->.
    { apply Z.ltb_ge. unfold len in *. rewrite length_take. lia. }
    done.
Qed.

End chunk_properties.

Section loop_properties.
Import twstream notions.
Local Open Scope nat_scope.

Lemma expired_unset (ttl start : Z) (w : World) :
  (ttl ≤ 0)%Z → expired ttl start w = (false, w).
Proof. intros H. unfold expired. by rewrite (proj2 (Z.ltb_ge 0 ttl)). Qed.


Lemma linesUpTo_enough (f1 f2 : nat) (r : Reader) :
  length (pending r) < f1 → length (pending r) < f2 →
  linesUpTo f1 r = linesUpTo f2 r.
Proof.
  revert f2 r. induction f1 as [|f1 IH]; intros [|f2] r H1 H2; try lia.
  simpl. destruct (ReadLine_cases r) as [[_ ->]|(line & r' & -> & Hlt & _)]; [done|].
  f_equal. apply IH; lia.
Qed.

Lemma allLines_fuel (fuel : nat) (r : Reader) :
  length (pending r) < fuel → linesUpTo fuel r = allLines r.
Proof. intros. apply linesUpTo_enough; lia. Qed.

Lemma seek_exhausted (r : Reader) : pending r = [] → seek r [] = r.
Proof. destruct r. simpl. by intros ->. Qed.

Lemma seek_nil_eq (r r' : Reader) :
  atEnd r' = atEnd r → segment r' = segment r → seek r' [] = seek r [].
Proof. unfold seek. by intros -> ->. Qed.

(** Without a TTL the loop of [readData] prints every line of the stream
    and returns the error that ends it. *)
Lemma readDataLoop_unset (fuel : nat) (ttl start : Z) (r : Reader) (w : World) :
  (ttl ≤ 0)%Z → length (pending r) < fuel →
  readDataLoop fuel ttl start r w
  = Some (Some (atEnd r), seek r [], foldl Println w (linesUpTo fuel r)).
Proof.
  intros Httl. revert r w. induction fuel as [|fuel IH]; intros r w Hlt; [lia|].
  cbn [readDataLoop linesUpTo].
  destruct (ReadLine_cases r) as [[Hp Hrd]|(line & r' & Hrd & Hlt' & He & Hs)];
    rewrite Hrd; cbv beta iota zeta.
  - by rewrite seek_exhausted.
  - rewrite expired_unset by done. rewrite IH by lia. cbn [foldl].
    by rewrite He, (seek_nil_eq r r').
Qed.

(** What a turn of the chunked loop returns, without gzip. *)
Lemma readChunk_returns (r : Reader) (gz : Gz) (w : World) res r' w' :
  readChunk false r gz w = inl (res, r', w') →
  res = Return (Some (atEnd r))
  ∨ ∃ line, res = Return (Some (errors_New ("Expected hex, got " ++ line))).
Proof.
  unfold readChunk.
  destruct (ReadLine_cases r) as [[Hp Hrd]|(line & r1 & Hrd & Hlt' & He & Hs)];
    rewrite Hrd; cbv beta iota zeta.
  - intros [= <- _ _]. by left.
  - destruct (decodeHexString line) as [size [e|]].
    + intros [= <- _ _]. right. by eexists.
    + cbn [negb]. by destruct (CopyN _ _ _) as [[? ?] ?].
Qed.

Lemma CopyN_stdout_reader (log : Log) (src : Reader) (n : Z) dst src' err :
  CopyN {| Writer := log |} src n = (dst, src', err) →
  length (pending src') ≤ length (pending src)
  ∧ atEnd src' = atEnd src ∧ segment src' = segment src
  ∧ (err = None ∨ err = Some (atEnd src)).
Proof.
  destruct (decide (n ≤ 0)%Z) as [Hn|Hn].
  - rewrite CopyN_nothing by done. intros [= _ <- <-]. auto.
  - rewrite CopyN_stdout by lia. intros [= _ <- <-]. cbn [seek pending atEnd segment].
    rewrite length_drop. split; [lia|]. split; [done|]. split; [done|].
    destruct (_ <? _)%Z; auto.
Qed.

(** A turn that goes on consumed at least one byte; the only effect on the
    world is on the standard output. *)
Lemma readChunk_continues (r : Reader) (gz : Gz) (w : World) err r' gz' w' :
  readChunk false r gz w = inr (err, r', gz', w') →
  length (pending r') < length (pending r)
  ∧ atEnd r' = atEnd r ∧ segment r' = segment r
  ∧ (err = None ∨ err = Some (atEnd r))
  ∧ ∃ out, w' = setStdout w out.
Proof.
  unfold readChunk.
  destruct (ReadLine_cases r) as [[Hp Hrd]|(line & r1 & Hrd & Hlt' & He & Hs)];
    rewrite Hrd; cbv beta iota zeta; [done|].
  destruct (decodeHexString line) as [size [e|]]; [done|]. cbn [negb].
  destruct (CopyN _ _ _) as [[dst src'] cerr] eqn:Hc.
  apply CopyN_stdout_reader in Hc as (Hl & He' & Hs' & Herr).
  intros [= <- <- _ <-]. split; [lia|]. split; [congruence|]. split; [congruence|].
  split; [|by eexists]. destruct Herr as [->| ->]; [by left|right; congruence].
Qed.

(** Without a TTL and without gzip the chunked loop ends with an error:
    that of the reader, or a malformed size line. *)
Lemma readChunkedLoop_unset (fuel : nat) (ttl start : Z) (r : Reader) (gz : Gz) (w : World) :
  (ttl ≤ 0)%Z → length (pending r) < fuel →
  ∃ e r' w', readChunkedLoop fuel false ttl start r gz w = Some (Return (Some e), r', w')
    ∧ (e = atEnd r ∨ ∃ line, e = errors_New ("Expected hex, got " ++ line)).
Proof.
  intros Httl. revert r gz w. induction fuel as [|fuel IH]; intros r gz w Hlt; [lia|].
  cbn [readChunkedLoop].
  destruct (readChunk false r gz w) as [[[res r'] w']|[[[err r'] gz'] w']] eqn:Hc.
  - apply readChunk_returns in Hc as [->|[line ->]]; eexists _, _, _; split; eauto.
  - apply readChunk_continues in Hc as (Hl & He & Hs & Herr & _).
    rewrite expired_unset by done.
    destruct Herr as [->| ->].
    + destruct (IH r' gz' w') as (e & r'' & w'' & -> & Hor); [lia|].
      eexists _, _, _. split; [done|]. rewrite <- He. done.
    + eexists _, _, _. split; [done|]. by left.
Qed.

(** A check of the TTL stops the loop only when a TTL is set. *)
Lemma expired_true (ttl start : Z) (w w' : World) :
  expired ttl start w = (true, w') → (0 < ttl)%Z.
Proof.
  unfold expired. destruct (0 <? ttl)%Z eqn:H; [|done]. intros _. by apply Z.ltb_lt.
Qed.

(** Whatever the writer, a copy leaves the reader on a suffix of what it
    held, with the same end. *)
Lemma CopyN_reader {W} `{io_Writer W} (dst : W) (src : Reader) (n : Z) dst' src' err :
  CopyN dst src n = (dst', src', err) →
  length (pending src') ≤ length (pending src)
  ∧ atEnd src' = atEnd src ∧ segment src' = segment src.
Proof.
  unfold CopyN. destruct (n <=? 0)%Z; [by intros [= _ <- _]|].
  destruct (writeSlices _ _ _) as [[d done] [e|]].
  - intros [= _ <- _]. cbn [seek pending atEnd segment]. rewrite length_drop. split; [lia|done].
  - destruct (_ <? _)%Z; intros [= _ <- _]; cbn [seek pending atEnd segment];
      rewrite length_drop; (split; [lia|done]).
Qed.

(** A turn of the chunked loop never returns nil by itself. *)
Lemma readChunk_not_nil (gzip : bool) (r : Reader) (gz : Gz) (w : World) res r' w' :
  readChunk gzip r gz w = inl (res, r', w') → res ≠ Return None.
Proof.
  unfold readChunk. destruct (ReadLine r) as [[line [e|]] r1]; [by intros [= <- _ _]|].
  destruct (decodeHexString line) as [size [e|]]; [by intros [= <- _ _]|].
  destruct gzip; cbn [negb].
  - destruct (CopyN _ _ _) as [[buffer r2] [e|]]; [by intros [= <- _ _]|].
    destruct (if opened gz then None else gzipOpen w (content buffer));
      [by intros [= <- _ _]|].
    destruct (inflate w _); [by intros [= <- _ _]|done].
  - by destruct (CopyN _ _ _) as [[? ?] ?].
Qed.

(** A turn that goes on has consumed at least one byte. *)
Lemma readChunk_progress (gzip : bool) (r : Reader) (gz : Gz) (w : World) err r' gz' w' :
  readChunk gzip r gz w = inr (err, r', gz', w') →
  length (pending r') < length (pending r).
Proof.
  unfold readChunk.
  destruct (ReadLine_cases r) as [[Hp Hrd]|(line & r1 & Hrd & Hlt' & He & Hs)];
    rewrite Hrd; cbv beta iota zeta; [done|].
  destruct (decodeHexString line) as [size [e|]]; [done|].
  destruct gzip; cbn [negb].
  - destruct (CopyN _ _ _) as [[buffer r2] cerr] eqn:Hc.
    apply CopyN_reader in Hc as (Hl & _). destruct cerr; [done|].
    destruct (if opened gz then None else gzipOpen w (content buffer)); [done|].
    destruct (inflate w _); [done|]. intros [= _ <- _ _]. lia.
  - destruct (CopyN _ _ _) as [[dst r2] cerr] eqn:Hc.
    apply CopyN_reader in Hc as (Hl & _). intros [= _ <- _ _]. lia.
Qed.

(** The chunked loop ends on every finite stream, and with nil only when a
    TTL is set. *)
Lemma readChunkedLoop_total (fuel : nat) (gzip : bool) (ttl start : Z)
    (r : Reader) (gz : Gz) (w : World) :
  length (pending r) < fuel →
  ∃ res r' w', readChunkedLoop fuel gzip ttl start r gz w = Some (res, r', w')
    ∧ (res = Return None → (0 < ttl)%Z).
Proof.
  revert r gz w. induction fuel as [|fuel IH]; intros r gz w Hlt; [lia|].
  cbn [readChunkedLoop].
  destruct (readChunk gzip r gz w) as [[[res r'] w']|[[[err r'] gz'] w']] eqn:Hc.
  - eexists _, _, _. split; [done|]. intros ->. by apply readChunk_not_nil in Hc.
  - apply readChunk_progress in Hc.
    destruct (expired ttl start w') as [[] w''] eqn:He.
    + eexists _, _, _. split; [done|]. intros _. by apply expired_true in He.
    + destruct err as [e|]; [by eexists _, _, _|]. apply IH. lia.
Qed.

(** So does the loop of [readData]. *)
Lemma readDataLoop_total (fuel : nat) (ttl start : Z) (r : Reader) (w : World) :
  length (pending r) < fuel →
  ∃ err r' w', readDataLoop fuel ttl start r w = Some (err, r', w')
    ∧ (err = None → (0 < ttl)%Z).
Proof.
  revert r w. induction fuel as [|fuel IH]; intros r w Hlt; [lia|].
  cbn [readDataLoop].
  destruct (ReadLine_cases r) as [[Hp Hrd]|(line & r' & Hrd & Hlt' & _)];
    rewrite Hrd; cbv beta iota zeta.
  - by eexists _, _, _.
  - destruct (expired ttl start (Println w line)) as [[] w'] eqn:He.
    + eexists _, _, _. split; [done|]. intros _. by apply expired_true in He.
    + apply IH. lia.
Qed.

End loop_properties.

Section read_properties.
Import twstream notions.
Local Open Scope nat_scope.

Lemma mergeFirst_empty (sp : gmap string string) : oauth1a.mergeFirst ∅ sp = Some sp.
Proof. unfold oauth1a.mergeFirst. by rewrite map_fold_empty. Qed.

(** A request without query and form values is signed without a panic. *)
Lemma Sign_no_values (env : oauth1a.SignEnv) (req : oauth1a.Request)
    (client : oauth1a.ClientConfig) (user : oauth1a.UserConfig) :
  oauth1a.Query (oauth1a.Url req) = ∅ → oauth1a.Form (oauth1a.ParseForm req) = ∅ →
  is_Some (oauth1a.Sign env req client user).
Proof.
  intros Hq Hf. unfold oauth1a.Sign, oauth1a.SignWith, oauth1a.GetOAuthParams.
  cbv zeta. destruct (ParseForm_frame req) as (_ & -> & _).
  rewrite Hq, Hf. destruct (oauth1a.GetToken user) as [tokenKey tokenSecret].
  rewrite !mergeFirst_empty. by eexists.
Qed.

(** [request] returns (it does not panic), and touches neither the reader,
    nor the world, nor the settings the body loops read. *)
Lemma request_frame (c : Connection) (w : World) :
  ∃ err c', request c w = (Return err, c', w)
    ∧ reader c' = reader c
    ∧ GZip (conf c') = GZip (conf c)
    ∧ Chunked (conf c') = Chunked (conf c)
    ∧ TTL (conf c') = TTL (conf c).
Proof.
  unfold request, writeOut. destruct (writer c) as [wr|]; [|by eexists _, _].
  destruct (newRequestError w); [by eexists _, _|].
  match goal with
  | |- context [oauth1a.Sign ?e ?r ?cl ?u] =>
      destruct (Sign_no_values e r cl u eq_refl eq_refl) as [req' ->]
  end.
  destruct (conn c) as [k|]; [|by eexists _, _].
  destruct wr, (WriterListener (conf c)) as [l|].
  - destruct (Write k _) as [k' [n err]]. by eexists _, _.
  - destruct (Write k _) as [k' [n err]]. by eexists _, _.
  - destruct (Write _ _) as [m [n err]]. by eexists _, _.
  - destruct (Write k _) as [k' [n err]]. by eexists _, _.
Qed.

Lemma readData_unset (fuel : nat) (c : Connection) (w : World) (r : Reader) :
  reader c = Some (readerPlain r) → GZip (conf c) = false → (TTL (conf c) ≤ 0)%Z →
  length (pending r) < fuel →
  readData fuel c w
  = Some (Return (Some (atEnd r)), setReader c (Some (readerPlain (seek r []))),
          foldl Println (Now w).2 (allLines r)).
Proof.
  intros Hr Hg Httl Hlt. unfold readData. rewrite Hr, Hg. cbn [force].
  unfold Now at 1. rewrite readDataLoop_unset by done.
  by rewrite allLines_fuel.
Qed.

Lemma readChunkedData_unset (fuel : nat) (c : Connection) (w : World) (r : Reader) :
  reader c = Some (readerPlain r) → GZip (conf c) = false → (TTL (conf c) ≤ 0)%Z →
  length (pending r) < fuel →
  ∃ e c' w', readChunkedData fuel c w = Some (Return (Some e), c', w')
    ∧ (e = atEnd r ∨ ∃ line, e = errors_New ("Expected hex, got " ++ line)).
Proof.
  intros Hr Hg Httl Hlt. unfold readChunkedData. rewrite Hr, Hg. cbn [force].
  unfold Now.
  match goal with
  | |- context [readChunkedLoop fuel false ?t ?s r ?g ?w0] =>
      destruct (readChunkedLoop_unset fuel t s r g w0 Httl Hlt) as (e & r' & w' & -> & Hor)
  end.
  by eexists _, _, _.
Qed.

(** [Read] without a reader listener, up to the body: the result of
    [request] is dropped, the headers are read, and the body loop runs on
    what follows them. *)
Lemma Read_plain (c : Connection) (w : World) :
  dialError w = None → ReaderListener (conf c) = None →
  ∃ c' r',
    (∀ fuel, length (incoming (peer w)) < fuel →
       Read fuel c w
       = closing <$> (if Chunked (conf c) then readChunkedData fuel c' w
                      else readData fuel c' w))
    ∧ reader c' = Some (readerPlain r')
    ∧ length (pending r') ≤ length (incoming (peer w))
    ∧ atEnd r' = endError (peer w)
    ∧ segment r' = segments w
    ∧ TTL (conf c') = TTL (conf c)
    ∧ Chunked (conf c') = Chunked (conf c)
    ∧ GZip (conf c')
      = GZip (conf c)
        && existsb (gzipHeader (unicodeLower w))
             (headerLines {| pending := incoming (peer w); atEnd := endError (peer w);
                             segment := segments w |}).
Proof.
  intros Hd Hl.
  pose (c0 := setReader
                (setWriter (setConn c (Some (peer w)))
                   (Some match WriterListener (conf c) with
                         | Some _ => toConnAndListener
                         | None => toConn
                         end))
                (Some (readerPlain {| pending := incoming (peer w);
                                      atEnd := endError (peer w);
                                      segment := segments w |}))).
  destruct (request_frame c0 w) as (err & c1 & Hreq & Hr1 & Hg1 & Hc1 & Ht1).
  cbn [c0 setReader setWriter setConn reader conf] in Hr1, Hg1, Hc1, Ht1.
  destruct (readHeaders_plain c1 w _ Hr1) as (r' & Hh & Hlen & He & Hs).
  cbn [pending atEnd segment] in Hh, Hlen, He, Hs.
  eexists _, r'. split; [|].
  - intros fuel Hlt. unfold Read, connect. rewrite Hd.
    cbv beta iota zeta. cbn [setConn setWriter conn conf]. rewrite Hl.
    fold c0. rewrite Hreq, (Hh fuel Hlt).
    cbn [conf setConf setGZip Chunked]. rewrite Hc1. reflexivity.
  - cbn [conf setConf setReader setGZip Chunked reader TTL GZip].
    by rewrite Hg1.
Qed.

(** [readData] ends on every finite stream, gzip or not. *)
Lemma readData_total (c : Connection) (w : World) (r : Reader) :
  reader c = Some (readerPlain r) →
  ∃ N, ∀ fuel, N < fuel →
    ∃ res c' w', readData fuel c w = Some (res, c', w')
      ∧ (res = Return None → (0 < TTL (conf c))%Z).
Proof.
  intros Hr. unfold readData. rewrite Hr. cbn [force].
  destruct (GZip (conf c)).
  - destruct (gunzip w (pending r)) as [e|[decoded zerr]].
    + exists 0. intros fuel _. by eexists _, _, _.
    + exists (length decoded). intros fuel Hlt. unfold Now.
      match goal with
      | |- context [readDataLoop fuel ?t ?s ?r0 ?w0] =>
          destruct (readDataLoop_total fuel t s r0 w0 Hlt) as (err & r' & w' & -> & Hnil)
      end.
      eexists _, _, _. split; [done|]. intros [= ->]. auto.
  - exists (length (pending r)). intros fuel Hlt. unfold Now.
    match goal with
    | |- context [readDataLoop fuel ?t ?s ?r0 ?w0] =>
        destruct (readDataLoop_total fuel t s r0 w0 Hlt) as (err & r' & w' & -> & Hnil)
    end.
    eexists _, _, _. split; [done|]. intros [= ->]. auto.
Qed.

Lemma readChunkedData_total (fuel : nat) (c : Connection) (w : World) (r : Reader) :
  reader c = Some (readerPlain r) → length (pending r) < fuel →
  ∃ res c' w', readChunkedData fuel c w = Some (res, c', w')
    ∧ (res = Return None → (0 < TTL (conf c))%Z).
Proof.
  intros Hr Hlt. unfold readChunkedData. rewrite Hr. cbn [force]. unfold Now.
  match goal with
  | |- context [readChunkedLoop fuel ?g ?t ?s r ?gz ?w0] =>
      destruct (readChunkedLoop_total fuel g t s r gz w0 Hlt) as (res & r' & w' & -> & Hnil)
  end.
  by eexists _, _, _.
Qed.

(** [Read] ends on every finite stream when no reader listener is set, and
    returns nil only when a TTL is set. *)
Lemma Read_total (c : Connection) (w : World) :
  dialError w = None → ReaderListener (conf c) = None →
  ∃ N, ∀ fuel, N < fuel →
    ∃ res c' w', Read fuel c w = Some (res, c', w')
      ∧ (res = Return None → (0 < TTL (conf c))%Z).
Proof.
  intros Hd Hl.
  destruct (Read_plain c w Hd Hl) as (c1 & r1 & HR & Hr & Hlen & _ & _ & Ht & _ & _).
  destruct (readData_total c1 w r1 Hr) as [N HN].
  exists (N `max` length (incoming (peer w))). intros fuel Hlt.
  rewrite HR by lia. destruct (Chunked (conf c)).
  - destruct (readChunkedData_total fuel c1 w r1 Hr) as (res & c' & w' & -> & Hnil); [lia|].
    eexists _, _, _. split; [reflexivity|]. rewrite <- Ht. done.
  - destruct (HN fuel) as (res & c' & w' & -> & Hnil); [lia|].
    eexists _, _, _. split; [reflexivity|]. rewrite <- Ht. done.
Qed.

(** With a reader listener set, [Read] never returns: its first read goes
    through the [listeningReader]. *)
Lemma Read_with_reader_listener (fuel : nat) (c : Connection) (w : World) (l : Log) :
  dialError w = None → ReaderListener (conf c) = Some l →
  Read fuel c w = None.
Proof.
  intros Hd Hl. unfold Read, connect. rewrite Hd.
  cbv beta iota zeta. cbn [setConn setWriter conn conf]. rewrite Hl.
  match goal with
  | |- context [request ?c0 w] =>
      destruct (request_frame c0 w) as (err & c1 & -> & Hr1 & _)
  end.
  cbn [setReader reader] in Hr1. unfold readHeaders. rewrite Hr1. cbn [force].
  by rewrite listeningReader_Read_diverges.
Qed.

End read_properties.

(** ** The claims on the streaming client *)

(** C9.  A call of [listeningReader.Read] starts by calling itself, so no
    call returns, whatever the depth allowed: it reads nothing from the
    connection and hands nothing to the listener. *)
Theorem C9_listeningReader_Read_never_returns
    (fuel : nat) (r : twstream.listeningReader) (p : twstream.bytes) :
  twstream.listeningReader_Read fuel r p = None.
Proof. apply listeningReader_Read_diverges. Qed.

(** C10.  [NonEmptyWriter.Write] returns [(len(p), nil)] and leaves the
    underlying writer alone when [p] is empty or is the two bytes CR LF;
    otherwise it hands [p] to the underlying writer and returns its result. *)
Theorem C10_NonEmptyWriter_Write
    {W : Type} `{twstream.io_Writer W} (w : twstream.NonEmptyWriter W) (p : twstream.bytes) :
  twstream.Write w p =
    if decide (p = [] ∨ p = twstream.CRLF) then (w, (twstream.len p, None))
    else (twstream.Build_NonEmptyWriter W (twstream.Write (twstream.Writer w) p).1,
          (twstream.Write (twstream.Writer w) p).2).
Proof.
  unfold twstream.Write at 1, twstream.NonEmptyWriter_Write.
  destruct (decide _) as [[->| ->]|Hne].
  - reflexivity.
  - reflexivity.
  - assert (((twstream.len p =? 0)%Z
             || (twstream.len p =? 2)%Z && bool_decide (p = twstream.CRLF)) = false) as ->.
    { apply orb_false_iff. split.
      - apply Z.eqb_neq. unfold twstream.len. destruct p; [tauto|simpl; lia].
      - apply andb_false_iff. right. apply bool_decide_eq_false. tauto. }
    by destruct (twstream.Write (twstream.Writer w) p) as [u res].
Qed.

(** What [readHeaders] does to the flag: it completes without an error,
    and the GZip flag it leaves is the flag the caller set AND "some piece
    returned by [ReadLine], lowered, starts with content-encoding: and
    holds gzip".  So the flag never goes from false to true. *)
Lemma readHeaders_flag
    (fuel : nat) (c : twstream.Connection) (w : twstream.World) (r : twstream.Reader) :
  twstream.reader c = Some (twstream.readerPlain r) →
  (length (twstream.pending r) < fuel)%nat →
  ∃ c', twstream.readHeaders fuel c w = Some (twstream.Return None, c', w)
      ∧ twstream.GZip (twstream.conf c')
        = twstream.GZip (twstream.conf c)
          && existsb (notions.gzipHeader (twstream.unicodeLower w)) (notions.headerLines r).
Proof.
  intros Hr Hlt.
  destruct (readHeaders_plain c w r Hr) as (r' & Hh & _).
  rewrite (Hh fuel Hlt). eexists. split; [reflexivity|]. reflexivity.
Qed.

(** C6.  A response whose only header field is [X-Pad], with a value of
    4089 letters followed by the text "content-encoding: gzip", declares no
    content encoding.  The field is longer than the 4096 bytes of the
    reader's buffer, so [ReadLine] returns it in two pieces, and the second
    piece starts with "content-encoding:": [readHeaders], which does not
    look at [isPrefix], takes the piece for a header line and leaves the
    GZip flag the caller set.  With one letter less in the value the piece
    starts elsewhere and the flag is turned to false, as it is for a
    response without any field; a response with the field
    Content-Encoding: GZIP keeps the flag, and does not set it for a caller
    who did not ask for gzip. *)
Theorem C6_piece_of_long_field_taken_for_header :
  notions.declaresGzipEncoding
    (fixtures.B (fixtures.paddedResponse 4089 "content-encoding: gzip")) = false
  ∧ fixtures.gzipAfter
      (twstream.readHeaders 64
         (fixtures.reading (fixtures.requestingGZip (fixtures.connection false 0))
            (fixtures.paddedResponse 4089 "content-encoding: gzip"))
         fixtures.quiet)
    = Some (twstream.Return None, true)
  ∧ fixtures.gzipAfter
      (twstream.readHeaders 64
         (fixtures.reading (fixtures.requestingGZip (fixtures.connection false 0))
            (fixtures.paddedResponse 4088 "content-encoding: gzip"))
         fixtures.quiet)
    = Some (twstream.Return None, false)
  ∧ fixtures.gzipAfter
      (twstream.readHeaders 64
         (fixtures.reading (fixtures.requestingGZip (fixtures.connection false 0))
            (fixtures.response "tweet"))
         fixtures.quiet)
    = Some (twstream.Return None, false)
  ∧ notions.declaresGzipEncoding
      (fixtures.B ("HTTP/1.1 200 OK" ++ fixtures.crlf ++
                   "Content-Encoding: GZIP" ++ fixtures.crlf ++ fixtures.crlf)) = true
  ∧ fixtures.gzipAfter
      (twstream.readHeaders 64
         (fixtures.reading (fixtures.requestingGZip (fixtures.connection false 0))
            ("HTTP/1.1 200 OK" ++ fixtures.crlf ++
             "Content-Encoding: GZIP" ++ fixtures.crlf ++ fixtures.crlf))
         fixtures.quiet)
    = Some (twstream.Return None, true)
  ∧ fixtures.gzipAfter
      (twstream.readHeaders 64
         (fixtures.reading (fixtures.connection false 0)
            ("HTTP/1.1 200 OK" ++ fixtures.crlf ++
             "Content-Encoding: GZIP" ++ fixtures.crlf ++ fixtures.crlf))
         fixtures.quiet)
    = Some (twstream.Return None, false).
Proof. split_and!; vm_compute; reflexivity. Qed.

(** C5 (as the code has it).  In a turn of the chunked loop whose size line
    holds a character outside 0-9, a-f, A-F, the turn returns the error
    "Expected hex, got <line>" and writes nothing.  When the line is made
    of hexadecimal digits, its value [n] fits an int64 and [n] bytes follow,
    then, without gzip, those [n] bytes are handed to the [NonEmptyWriter]
    in the slices in which the reader delivers them, and the standard
    output receives the slices that are neither empty nor CR LF; a payload
    delivered at once that is not CR LF arrives as one segment of [n]
    bytes. *)
Theorem C5_chunk_size_line_and_payload
    (r : twstream.Reader) (gz : twstream.Gz) (w : twstream.World)
    (line : twstream.bytes) (r1 : twstream.Reader) :
  twstream.ReadLine r = (line, None, r1) →
  (forallb notions.isHexDigit line = false →
   ∀ gzip, twstream.readChunk gzip r gz w
     = inl (twstream.Return (Some (twstream.errors_New
              ("Expected hex, got " ++ string_of_list_ascii line))), r1, w))
  ∧ (forallb notions.isHexDigit line = true →
     (0 ≤ notions.hexValue line < 2 ^ 63)%Z →
     (notions.hexValue line ≤ twstream.len (twstream.pending r1))%Z →
     twstream.readChunk false r gz w
     = inr (None,
            twstream.seek r1 (drop (Z.to_nat (notions.hexValue line)) (twstream.pending r1)),
            gz,
            twstream.setStdout w
              {| twstream.written :=
                   (twstream.written (twstream.stdout w) ++
                    List.filter notions.passes
                      (twstream.carve
                         (twstream.segment r1 (length (twstream.pending r1)))
                         (take (Z.to_nat (notions.hexValue line)) (twstream.pending r1))))%list |}))
  ∧ (forallb notions.isHexDigit line = true →
     (0 < notions.hexValue line < 2 ^ 63)%Z →
     (notions.hexValue line ≤ twstream.len (twstream.pending r1))%Z →
     twstream.segment r1 (length (twstream.pending r1)) = [] →
     take (Z.to_nat (notions.hexValue line)) (twstream.pending r1) ≠ twstream.CRLF →
     ∃ r' w', twstream.readChunk false r gz w = inr (None, r', gz, w')
       ∧ twstream.written (twstream.stdout w')
         = (twstream.written (twstream.stdout w)
            ++ [take (Z.to_nat (notions.hexValue line)) (twstream.pending r1)])%list).
Proof.
  intros Hrd. split; [|split].
  - intros Hbad gzip. by apply readChunk_malformed.
  - intros Hok Hn Hav. by apply readChunk_payload.
  - intros Hok Hn Hav Hseg Hne.
    rewrite (readChunk_payload r gz w line r1 Hrd Hok) by (done || lia).
    eexists _, _. split; [reflexivity|]. cbn [twstream.setStdout twstream.stdout twstream.written].
    rewrite Hseg. f_equal.
    destruct (take _ _) as [|c payload] eqn:Ht.
    + apply (f_equal length) in Ht. rewrite length_take in Ht.
      unfold twstream.len in Hav. simpl in Ht. lia.
    + cbn [twstream.carve List.filter]. unfold notions.passes.
      rewrite bool_decide_eq_false_2 by done. by rewrite bool_decide_eq_false_2.
Qed.

Lemma C5_witness :
  ∃ r' w',
    twstream.readChunk false
      (fixtures.readerOver ("f" ++ fixtures.crlf ++ "0123456789abcde" ++ fixtures.crlf) [])
      fixtures.noGzip fixtures.quiet
    = inr (None, r', fixtures.noGzip, w')
    ∧ twstream.written (twstream.stdout w')
      = (twstream.written (twstream.stdout fixtures.quiet)
         ++ [fixtures.B "0123456789abcde"])%list.
Proof.
  apply (proj2 (proj2 (C5_chunk_size_line_and_payload
           (fixtures.readerOver ("f" ++ fixtures.crlf ++ "0123456789abcde" ++ fixtures.crlf) [])
           fixtures.noGzip fixtures.quiet (fixtures.B "f")
           (fixtures.readerOver ("0123456789abcde" ++ fixtures.crlf) [])
           eq_refl))).
  - reflexivity.
  - vm_compute. split; reflexivity.
  - vm_compute. discriminate.
  - reflexivity.
  - vm_compute. discriminate.
Defined.

(** C5, counterexample.  The size line "2" is valid and the two bytes CR LF
    follow, delivered at once; the turn succeeds and no byte reaches the
    standard output. *)
Lemma C5_counterexample :
  twstream.ReadLine (fixtures.readerOver ("2" ++ fixtures.crlf ++ fixtures.crlf ++ fixtures.crlf) [])
  = (fixtures.B "2", None, fixtures.readerOver (fixtures.crlf ++ fixtures.crlf) [])
  ∧ twstream.decodeHexString (fixtures.B "2") = (2%Z, None)
  ∧ twstream.readChunk false
      (fixtures.readerOver ("2" ++ fixtures.crlf ++ fixtures.crlf ++ fixtures.crlf) [])
      fixtures.noGzip fixtures.quiet
    = inr (None, fixtures.readerOver fixtures.crlf [], fixtures.noGzip, fixtures.quiet).
Proof. vm_compute. repeat split. Qed.

(** C3 (as the code has it).  When the dial succeeds and no reader listener
    is set, [Read] ends on every finite stream, and it returns nil only when
    a TTL is set.  With no TTL, the end of the stream is returned as an
    error: without gzip, on a transport that ends with [io.EOF], the result
    is [io.EOF] itself in plain mode, and in chunked mode [io.EOF] or the
    error of a malformed size line met before the end. *)
Theorem C3_Read_returns_EOF_as_error (c : twstream.Connection) (w : twstream.World) :
  twstream.dialError w = None →
  twstream.ReaderListener (twstream.conf c) = None →
  ∃ N, ∀ fuel, (N < fuel)%nat →
    ∃ res c' w',
      twstream.Read fuel c w = Some (res, c', w')
      ∧ (res = twstream.Return None → (0 < twstream.TTL (twstream.conf c))%Z)
      ∧ ((twstream.TTL (twstream.conf c) ≤ 0)%Z →
         twstream.GZip (twstream.conf c) = false →
         twstream.endError (twstream.peer w) = twstream.io_EOF →
         if twstream.Chunked (twstream.conf c) then
           res = twstream.Return (Some twstream.io_EOF)
           ∨ ∃ line, res = twstream.Return
                             (Some (twstream.errors_New ("Expected hex, got " ++ line)))
         else res = twstream.Return (Some twstream.io_EOF)).
Proof.
  intros Hd Hl.
  destruct (Read_plain c w Hd Hl)
    as (c1 & r1 & HR & Hr & Hlen & Hend & _ & Ht & _ & Hg1).
  destruct (readData_total c1 w r1 Hr) as [N HN].
  exists (N `max` length (twstream.incoming (twstream.peer w))). intros fuel Hlt.
  rewrite HR by lia. destruct (twstream.Chunked (twstream.conf c)).
  - destruct (readChunkedData_total fuel c1 w r1 Hr) as (res & c' & w' & Hbody & Hnil); [lia|].
    rewrite Hbody. eexists _, _, _. split; [reflexivity|]. rewrite <- Ht. split; [done|].
    intros Httl Hg He. rewrite Hg in Hg1. cbn [andb] in Hg1.
    destruct (readChunkedData_unset fuel c1 w r1 Hr Hg1 Httl) as (e & c'' & w'' & Hbody' & Hor);
      [lia|].
    rewrite Hbody' in Hbody. injection Hbody as <- _ _.
    rewrite Hend, He in Hor. destruct Hor as [->|[line ->]]; [by left|right; by eexists].
  - destruct (HN fuel) as (res & c' & w' & Hbody & Hnil); [lia|].
    rewrite Hbody. eexists _, _, _. split; [reflexivity|]. rewrite <- Ht. split; [done|].
    intros Httl Hg He. rewrite Hg in Hg1. cbn [andb] in Hg1.
    rewrite (readData_unset fuel c1 w r1 Hr Hg1 Httl) in Hbody by lia.
    injection Hbody as <- _ _. by rewrite Hend, He.
Qed.

Lemma C3_witness :
  ∃ N, ∀ fuel, (N < fuel)%nat →
    ∃ res c' w',
      twstream.Read fuel (fixtures.connection false 0)
        (fixtures.world
           (fixtures.peerSending (fixtures.response ("tweet one" ++ fixtures.crlf)) None) 1)
      = Some (res, c', w')
      ∧ (res = twstream.Return None → (0 < 0)%Z)
      ∧ ((0 ≤ 0)%Z → false = false → twstream.io_EOF = twstream.io_EOF →
         res = twstream.Return (Some twstream.io_EOF)).
Proof.
  apply (C3_Read_returns_EOF_as_error (fixtures.connection false 0)
           (fixtures.world
              (fixtures.peerSending (fixtures.response ("tweet one" ++ fixtures.crlf)) None) 1)).
  - reflexivity.
  - reflexivity.
Defined.

(** C3, counterexample.  The response of the test, a line and then the end
    of the stream: [Read] prints the line and returns [io.EOF] as its error,
    in plain mode and in chunked mode. *)
Lemma C3_counterexample :
  fixtures.observe
    (twstream.Read 64 (fixtures.connection false 0)
       (fixtures.world
          (fixtures.peerSending (fixtures.response ("tweet one" ++ fixtures.crlf)) None) 1))
  = Some (twstream.Return (Some twstream.io_EOF), ["tweet one" ++ fixtures.lf], 1%nat)
  ∧ fixtures.observe
      (twstream.Read 64 (fixtures.connection true 0)
         (fixtures.world
            (fixtures.peerSending
               (fixtures.response ("9" ++ fixtures.crlf ++ "tweet one" ++ fixtures.crlf)) None) 1))
    = Some (twstream.Return (Some twstream.io_EOF), ["tweet one"], 1%nat).
Proof. vm_compute. split; reflexivity. Qed.

(** C4.  [Read] drops the result of [request].  With a peer on which every
    write fails, [request] returns the failure, and [Read] goes on all the
    same: it reads the headers and the body, prints the line, and returns
    the error of the body loop, not the failure of the write. *)
Theorem C4_Read_drops_request_failure :
  (twstream.request
     (fixtures.requesting (fixtures.connection false 0)
        (fixtures.peerSending (fixtures.response ("tweet one" ++ fixtures.crlf))
           (Some (twstream.foreign "write: broken pipe"))))
     (fixtures.world
        (fixtures.peerSending (fixtures.response ("tweet one" ++ fixtures.crlf))
           (Some (twstream.foreign "write: broken pipe"))) 1)).1.1
  = twstream.Return (Some (twstream.foreign "write: broken pipe"))
  ∧ fixtures.observe
      (twstream.Read 64 (fixtures.connection false 0)
         (fixtures.world
            (fixtures.peerSending (fixtures.response ("tweet one" ++ fixtures.crlf))
               (Some (twstream.foreign "write: broken pipe"))) 1))
    = Some (twstream.Return (Some twstream.io_EOF), ["tweet one" ++ fixtures.lf], 0%nat).
Proof. vm_compute. split; reflexivity. Qed.




(** * Further properties *)

(** ** The percent-encoding *)

Section escape_properties.
Import gostd oauth1a signer_notions.
Local Open Scope string_scope.

Lemma allBytes_app (P : ascii → bool) (a b : string) :
  allBytes P (a ++ b) = allBytes P a && allBytes P b.
Proof. induction a as [|c a IH]; simpl; [done|]. by rewrite IH, andb_assoc. Qed.

Lemma string_length_app (a b : string) :
  String.length (a ++ b) = (String.length a + String.length b)%nat.
Proof. induction a as [|c a IH]; simpl; [done|]. by rewrite IH. Qed.

Lemma escapeByte_encoded (c : ascii) : allBytes encoded (escapeByte c) = true.
Proof. destruct c as [[] [] [] [] [] [] [] []]; vm_compute; reflexivity. Qed.

Lemma escapeByte_length (c : ascii) :
  (1 ≤ String.length (escapeByte c) ≤ 3)%nat.
Proof. destruct c as [[] [] [] [] [] [] [] []]; vm_compute; lia. Qed.

Lemma escapeByte_unreserved (c : ascii) :
  unreserved c = true → escapeByte c = String c "".
Proof. intros H. rewrite escapeByte_cases. by rewrite H. Qed.

Lemma escapeByte_reserved (c : ascii) :
  unreserved c = false → ∃ rest, escapeByte c = String "%" rest ∧ rest ≠ "".
Proof.
  intros H. rewrite escapeByte_cases, H. destruct (_ <? _)%N; by eexists.
Qed.

Lemma string_app_assoc (a b c : string) : (a ++ b) ++ c = a ++ (b ++ c).
Proof.
  induction a as [|x a IH]; [done|].
  change (String x ((a ++ b) ++ c) = String x (a ++ (b ++ c))). by f_equal.
Qed.

Lemma Rfc3986Escape_length (input : string) :
  (String.length input ≤ String.length (Rfc3986Escape input) ≤ 3 * String.length input)%nat.
Proof.
  induction input as [|c input IH]; [simpl; lia|].
  cbn [Rfc3986Escape String.length]. rewrite string_length_app.
  pose proof (escapeByte_length c). lia.
Qed.

(** [Rfc3986Escape] maps a concatenation to the concatenation of the
    escapes. *)
Lemma Rfc3986Escape_app (a b : string) :
  Rfc3986Escape (a ++ b) = Rfc3986Escape a ++ Rfc3986Escape b.
Proof.
  induction a as [|c a IH]; simpl; [done|].
  rewrite IH. symmetry. apply string_app_assoc.
Qed.

End escape_properties.

(** X1.  The output of [Rfc3986Escape] is made of unreserved bytes and
    percent signs only: whatever the input, it holds no ampersand, equals
    sign, plus, space, comma or double quote. *)
Theorem X1_Rfc3986Escape_output_alphabet (input : string) :
  signer_notions.allBytes signer_notions.encoded (oauth1a.Rfc3986Escape input) = true.
Proof.
  induction input as [|c input IH]; [done|].
  cbn [oauth1a.Rfc3986Escape]. by rewrite allBytes_app, escapeByte_encoded, IH.
Qed.

(** X2.  The escape is never shorter than the input and at most three
    times as long. *)
Theorem X2_Rfc3986Escape_length (input : string) :
  (String.length input ≤ String.length (oauth1a.Rfc3986Escape input)
   ≤ 3 * String.length input)%nat.
Proof. apply Rfc3986Escape_length. Qed.

(** X3.  [Rfc3986Escape] leaves a string as it is exactly when all its
    bytes are unreserved. *)
Theorem X3_Rfc3986Escape_fixed_points (input : string) :
  oauth1a.Rfc3986Escape input = input
  ↔ signer_notions.allBytes oauth1a.unreserved input = true.
Proof.
  induction input as [|c input IH]; [done|].
  cbn [oauth1a.Rfc3986Escape signer_notions.allBytes].
  destruct (oauth1a.unreserved c) eqn:Hu.
  - rewrite (escapeByte_unreserved c Hu). cbn [String.append andb].
    rewrite <- IH. split; [by intros [= ?]|by intros ->].
  - cbn [andb]. split; [|done]. intros Heq.
    apply (f_equal String.length) in Heq.
    rewrite string_length_app in Heq. cbn [String.length] in Heq.
    destruct (escapeByte_reserved c Hu) as (rest & Hr & Hne).
    rewrite Hr in Heq. cbn [String.length] in Heq.
    pose proof (Rfc3986Escape_length input) as HX.
    destruct rest; [done|]. cbn [String.length] in Heq. lia.
Qed.

Section unescape_properties.
Import gostd oauth1a signer_notions.
Local Open Scope string_scope.

Lemma unreserved_not_percent (c : ascii) :
  unreserved c = true → Ascii.eqb c "%" = false.
Proof. destruct c as [[] [] [] [] [] [] [] []]; intros H; try discriminate H; reflexivity. Qed.

Lemma unhex_digit_nat (n : nat) :
  (n < 16)%nat → unhex (digitOf upperDigits (N.of_nat n)) = Some (N.of_nat n).
Proof. intros H. do 16 (destruct n as [|n]; [reflexivity|]). lia. Qed.

Lemma unhex_digitOf (d : N) : (d < 16)%N → unhex (digitOf upperDigits d) = Some d.
Proof.
  intros H. rewrite <- (N2Nat.id d). apply unhex_digit_nat. lia.
Qed.

(** Decoding what the loop body emits for a byte from 0x10 on gives the
    byte back. *)
Lemma unescape_escapeByte (c : ascii) (t : string) :
  high c = true →
  unescape (escapeByte c ++ t)
  = match unescape t with
    | Some out => Some (String c out)
    | None => None
    end.
Proof.
  intros Hh. rewrite escapeByte_cases. destruct (unreserved c) eqn:Hu.
  - change (String c "" ++ t) with (String c t). cbn [unescape].
    by rewrite unreserved_not_percent.
  - unfold high in Hh. apply N.leb_le in Hh.
    rewrite (proj2 (N.ltb_ge (byteval c) 16)) by done.
    match goal with
    | |- context [String "%" (String ?h (String ?l "")) ++ t] =>
        change (String "%" (String h (String l "")) ++ t)
          with (String "%" (String h (String l t)))
    end.
    cbn [unescape]. change (Ascii.eqb "%" "%") with true. cbv iota.
    assert (byteval c < 256)%N as Hb by apply N_ascii_bounded.
    rewrite !unhex_digitOf.
    + destruct (unescape t); [|done]. do 2 f_equal.
      rewrite <- N.div_mod by lia. apply ascii_N_embedding.
    + apply N.mod_lt. lia.
    + apply N.Div0.div_lt_upper_bound. lia.
Qed.

Lemma unescape_Rfc3986Escape (input : string) :
  allBytes high input = true → unescape (Rfc3986Escape input) = Some input.
Proof.
  induction input as [|c input IH]; [done|].
  cbn [allBytes Rfc3986Escape]. intros [Hc Hi]%andb_true_iff.
  by rewrite unescape_escapeByte, IH.
Qed.

End unescape_properties.

(** X4.  Round trip: on an input without bytes below 0x10, the usual
    percent-decoding of [Rfc3986Escape]'s output gives the input back, so
    the escape is injective there. *)
Theorem X4_Rfc3986Escape_round_trip (input : string) :
  signer_notions.allBytes signer_notions.high input = true →
  signer_notions.unescape (oauth1a.Rfc3986Escape input) = Some input.
Proof. apply unescape_Rfc3986Escape. Qed.

Lemma X4_witness :
  signer_notions.unescape (oauth1a.Rfc3986Escape "a b&c=%~/") = Some "a b&c=%~/".
Proof. apply X4_Rfc3986Escape_round_trip. reflexivity. Defined.

(** X5.  [Rfc3986Escape] is not injective: the one-digit escapes of the
    bytes below 0x10 run into the two-digit ones, and two different inputs
    (here the byte 0x01 followed by "0", and the byte 0x10) have the same
    escape, hence the same place in a signature base string. *)
Theorem X5_Rfc3986Escape_not_injective :
  ∃ a b : string, a ≠ b ∧ oauth1a.Rfc3986Escape a = oauth1a.Rfc3986Escape b.
Proof.
  exists (String "001" "0"), (String "016" ""). split; [discriminate|reflexivity].
Qed.

(** ** The OAuth parameters *)

Section params_properties.
Import gostd oauth1a signer_notions.
Local Open Scope string_scope.

(** The copy loop [signingParams[key] = value] gives the map itself. *)
Lemma copy_map (m : gmap string string) :
  map_fold (λ key value acc, <[key := value]> acc) ∅ m = m.
Proof.
  apply (map_fold_weak_ind (λ r m, r = m)); [done|].
  intros i x m' r _ ->. done.
Qed.

(** [mergeFirst] panics exactly when some key holds an empty slice;
    otherwise the first values are laid over the parameters. *)
Lemma mergeFirst_spec (vals : Values) (sp : gmap string string) :
  mergeFirst vals sp
  = if decide (map_Forall (λ _ v, v ≠ []) vals) then Some (firsts vals ∪ sp) else None.
Proof.
  unfold mergeFirst, firsts.
  cut ((map_Forall (λ _ v, v ≠ []) vals →
        map_fold (λ key value acc,
                    match acc, value with
                    | Some sp0, v0 :: _ => Some (<[key := v0]> sp0)
                    | _, _ => None
                    end) (Some sp) vals = Some (omap head vals ∪ sp))
       ∧ (¬ map_Forall (λ _ v, v ≠ []) vals →
          map_fold (λ key value acc,
                      match acc, value with
                      | Some sp0, v0 :: _ => Some (<[key := v0]> sp0)
                      | _, _ => None
                      end) (Some sp) vals = None)).
  { intros [Hyes Hno]. destruct (decide _); auto. }
  apply (map_fold_weak_ind
           (λ r m, (map_Forall (λ _ v, v ≠ []) m → r = Some (omap head m ∪ sp))
                   ∧ (¬ map_Forall (λ _ v, v ≠ []) m → r = None))).
  - split; [|by intros []; apply map_Forall_empty].
    intros _. by rewrite omap_empty, (left_id_L ∅ (∪)).
  - intros i x m r Hi [Hyes Hno]. split.
    + intros [Hx Hm]%map_Forall_insert; [|done].
      rewrite (Hyes Hm). destruct x as [|v0 x]; [done|].
      rewrite (omap_insert_Some _ _ _ _ v0) by done.
      by rewrite insert_union_l.
    + intros Hnot. destruct (decide (map_Forall (λ _ v, v ≠ []) m)) as [Hm|Hm].
      * rewrite (Hyes Hm). destruct x as [|v0 x]; [done|].
        destruct Hnot. by apply map_Forall_insert_2.
      * rewrite (Hno Hm). by destruct x.
Qed.

Lemma GetOAuthParams_spec (rng : RangeOrder) (request : Request)
    (clientConfig : ClientConfig) (userConfig : UserConfig) (nonce timestamp : string) :
  GetOAuthParams rng request clientConfig userConfig nonce timestamp
  = if decide (map_Forall (λ _ v, v ≠ []) (Query (Url request))
               ∧ map_Forall (λ _ v, v ≠ []) (Form (ParseForm request))) then
      let oauthParams := protocolParams clientConfig userConfig nonce timestamp in
      let signatureBase :=
        Join [Method request;
              QueryEscape (Scheme (Url request) ++ "://" ++ Host (Url request)
                           ++ Path (Url request));
              encodeParameters rng
                (firsts (Form (ParseForm request))
                 ∪ (firsts (Query (Url request)) ∪ oauthParams))] "&" in
      Some (<["oauth_signature" :=
                GetSignature (ConsumerSecret clientConfig) (GetToken userConfig).2
                  signatureBase]> oauthParams, signatureBase)
    else None.
Proof.
  unfold GetOAuthParams, protocolParams. cbv zeta.
  destruct (ParseForm_frame request) as (-> & -> & _).
  destruct (GetToken userConfig) as [tokenKey tokenSecret]. cbn [fst snd].
  rewrite copy_map, !mergeFirst_spec.
  destruct (decide (map_Forall _ (Query (Url request)))) as [Hq|Hq].
  - rewrite mergeFirst_spec.
    destruct (decide (map_Forall _ (Form (ParseForm request)))) as [Hf|Hf].
    + by rewrite decide_True.
    + rewrite decide_False; [done|]. by intros [_ ?].
  - rewrite decide_False; [done|]. by intros [? _].
Qed.

End params_properties.

(** X6.  [GetOAuthParams] panics (on [value[0]]) exactly when the query of
    the request, or its form as [ParseForm] leaves it, holds a key with an
    empty slice of values. *)
Theorem X6_GetOAuthParams_panics_on_empty_values
    (rng : oauth1a.RangeOrder) (request : oauth1a.Request)
    (clientConfig : oauth1a.ClientConfig) (userConfig : oauth1a.UserConfig)
    (nonce timestamp : string) :
  oauth1a.GetOAuthParams rng request clientConfig userConfig nonce timestamp = None
  ↔ ∃ key, oauth1a.Query (oauth1a.Url request) !! key = Some []
           ∨ oauth1a.Form (oauth1a.ParseForm request) !! key = Some [].
Proof.
  rewrite GetOAuthParams_spec. split.
  - destruct (decide _) as [_|Hno]; [done|]. intros _.
    apply not_and_l in Hno as [Hq|Hf].
    + apply map_not_Forall in Hq as (key & v & Hk & Hv); [|apply _].
      exists key. left. destruct v; [done|]. by destruct Hv.
    + apply map_not_Forall in Hf as (key & v & Hk & Hv); [|apply _].
      exists key. right. destruct v; [done|]. by destruct Hv.
  - intros (key & [Hk|Hk]); (rewrite decide_False; [done|]); intros [Hq Hf].
    + by apply (Hq key []).
    + by apply (Hf key []).
Qed.

(** X7.  When [GetOAuthParams] returns, the parameters it signs are the
    protocol parameters overlaid by the first value of every query key and
    then of every key of the form (the form as [ParseForm] leaves it): a
    name present in the form is signed with the form's first value,
    whatever the query or the protocol parameters hold for it, while the
    returned map keeps the protocol value. *)
Theorem X7_GetOAuthParams_signing_precedence
    (rng : oauth1a.RangeOrder) (request : oauth1a.Request)
    (clientConfig : oauth1a.ClientConfig) (userConfig : oauth1a.UserConfig)
    (nonce timestamp : string) (params : gmap string string) (base : string) :
  oauth1a.GetOAuthParams rng request clientConfig userConfig nonce timestamp
  = Some (params, base) →
  ∃ signed : gmap string string,
    base = gostd.Join
             [oauth1a.Method request;
              gostd.QueryEscape
                (oauth1a.Scheme (oauth1a.Url request) ++ "://" ++
                 oauth1a.Host (oauth1a.Url request) ++ oauth1a.Path (oauth1a.Url request));
              oauth1a.encodeParameters rng signed] "&"
    ∧ (∀ key v rest,
         oauth1a.Form (oauth1a.ParseForm request) !! key = Some (v :: rest) →
         signed !! key = Some v)
    ∧ (∀ key v rest, oauth1a.Form (oauth1a.ParseForm request) !! key = None →
         oauth1a.Query (oauth1a.Url request) !! key = Some (v :: rest) →
         signed !! key = Some v)
    ∧ (∀ key, oauth1a.Form (oauth1a.ParseForm request) !! key = None →
         oauth1a.Query (oauth1a.Url request) !! key = None →
         signed !! key
         = signer_notions.protocolParams clientConfig userConfig nonce timestamp !! key)
    ∧ (∀ key, key ≠ "oauth_signature" →
         params !! key
         = signer_notions.protocolParams clientConfig userConfig nonce timestamp !! key).
Proof.
  rewrite GetOAuthParams_spec. destruct (decide _) as [_|_]; [|done].
  cbv zeta. intros [= <- <-]. eexists. split; [reflexivity|].
  unfold signer_notions.firsts. repeat split.
  - intros key v rest Hf. apply lookup_union_Some_l. by rewrite lookup_omap, Hf.
  - intros key v rest Hf Hq. rewrite lookup_union_r by (by rewrite lookup_omap, Hf).
    apply lookup_union_Some_l. by rewrite lookup_omap, Hq.
  - intros key Hf Hq. rewrite lookup_union_r by (by rewrite lookup_omap, Hf).
    by rewrite lookup_union_r by (by rewrite lookup_omap, Hq).
  - intros key Hne. by rewrite lookup_insert_ne.
Qed.

Lemma X7_witness :
  ∃ signed : gmap string string,
    "GET&http%3A%2F%2Fh%2Fp&a%3D2%26oauth_consumer_key%3Dck%26oauth_nonce%3Dn%26oauth_signature_method%3DHMAC-SHA1%26oauth_timestamp%3Dt%26oauth_version%3D1.0"
    = gostd.Join ["GET"; gostd.QueryEscape ("http" ++ "://" ++ "h" ++ "/p");
                  oauth1a.encodeParameters oauth1a.rangeSorted signed] "&"
    ∧ signed !! "a" = Some "2".
Proof.
  assert (oauth1a.GetOAuthParams oauth1a.rangeSorted
            {| oauth1a.Method := "GET";
               oauth1a.Url := {| oauth1a.Scheme := "http"; oauth1a.Host := "h";
                                 oauth1a.Path := "/p";
                                 oauth1a.Query := {["a" := ["1"]]} |};
               oauth1a.Form := {["a" := ["2"; "3"]]}; oauth1a.Header := ∅;
               oauth1a.unparsed := None |}
            {| oauth1a.ConsumerSecret := "cs"; oauth1a.ConsumerKey := "ck";
               oauth1a.CallbackURL := "" |}
            handshake.newUser "n" "t"
          = Some (<["oauth_signature" :=
                      oauth1a.GetSignature "cs" ""
                        "GET&http%3A%2F%2Fh%2Fp&a%3D2%26oauth_consumer_key%3Dck%26oauth_nonce%3Dn%26oauth_signature_method%3DHMAC-SHA1%26oauth_timestamp%3Dt%26oauth_version%3D1.0"]>
                    (signer_notions.protocolParams
                       {| oauth1a.ConsumerSecret := "cs"; oauth1a.ConsumerKey := "ck";
                          oauth1a.CallbackURL := "" |}
                       handshake.newUser "n" "t"),
                  "GET&http%3A%2F%2Fh%2Fp&a%3D2%26oauth_consumer_key%3Dck%26oauth_nonce%3Dn%26oauth_signature_method%3DHMAC-SHA1%26oauth_timestamp%3Dt%26oauth_version%3D1.0"))
    as Hget by (vm_compute; reflexivity).
  destruct (X7_GetOAuthParams_signing_precedence _ _ _ _ _ _ _ _ Hget)
    as (signed & Hbase & Hform & _).
  exists signed. split; [exact Hbase|]. by apply (Hform "a" "2" ["3"]).
Defined.

(** X8.  The map [GetOAuthParams] returns holds the six protocol names,
    and [oauth_token] exactly when the user has a token; no name of the
    request's query or form gets into it. *)
Theorem X8_GetOAuthParams_names
    (rng : oauth1a.RangeOrder) (request : oauth1a.Request)
    (clientConfig : oauth1a.ClientConfig) (userConfig : oauth1a.UserConfig)
    (nonce timestamp : string) (params : gmap string string) (base : string) :
  oauth1a.GetOAuthParams rng request clientConfig userConfig nonce timestamp
  = Some (params, base) →
  dom params
  = ({["oauth_consumer_key"; "oauth_nonce"; "oauth_signature";
       "oauth_signature_method"; "oauth_timestamp"; "oauth_version"]} : gset string)
    ∪ (if String.eqb (oauth1a.GetToken userConfig).1 "" then ∅ else {["oauth_token"]}).
Proof.
  rewrite GetOAuthParams_spec. destruct (decide _) as [_|_]; [|done].
  cbv zeta. intros [= <- _]. unfold signer_notions.protocolParams.
  destruct (String.eqb _ _); cbn [negb]; rewrite !dom_insert_L, dom_empty_L; set_solver.
Qed.

Lemma X8_witness :
  dom (<["oauth_signature" := "dG59sMu9QpDU4oJMGCjKEKGlVYU="]>
         (signer_notions.protocolParams oauth1a.fixtureClient oauth1a.fixtureUser
            "54321" "12345"))
  = ({["oauth_consumer_key"; "oauth_nonce"; "oauth_signature";
       "oauth_signature_method"; "oauth_timestamp"; "oauth_version"]} : gset string)
    ∪ {["oauth_token"]}.
Proof.
  apply (X8_GetOAuthParams_names oauth1a.rangeSorted oauth1a.fixtureRequest
           oauth1a.fixtureClient oauth1a.fixtureUser "54321" "12345" _
           "GET&https%3A%2F%2Fstream.twitter.com%2F1%2Fstatuses%2Ffilter.json&oauth_consumer_key%3Dconsumerkey%26oauth_nonce%3D54321%26oauth_signature_method%3DHMAC-SHA1%26oauth_timestamp%3D12345%26oauth_token%3Dtoken%26oauth_version%3D1.0").
  vm_compute. reflexivity.
Defined.



(** ** Signature, nonce and header *)

Section signature_properties.
Import gostd oauth1a signer_notions.
Local Open Scope string_scope.

Lemma hmac_sha1_length (key msg : list Z) : length (crypto.hmac_sha1 key msg) = 20%nat.
Proof. unfold crypto.hmac_sha1. apply sha1_length. Qed.

(** Twenty bytes are encoded on twenty-eight characters, the last one
    being the padding. *)
Lemma base64_20 (bs : list Z) :
  length bs = 20%nat →
  String.length (crypto.base64 bs) = 28%nat
  ∧ String.get 27 (crypto.base64 bs) = Some "="%char.
Proof.
  intros Hl. do 20 (destruct bs as [|? bs]; [by simpl in Hl|]).
  destruct bs; [|by simpl in Hl]. split; reflexivity.
Qed.

Lemma digitOf_lowerHex (d : N) : lowerHex (digitOf lowerDigits d) = true.
Proof.
  unfold digitOf. generalize (N.to_nat d). intros n.
  do 16 (destruct n as [|n]; [reflexivity|]). reflexivity.
Qed.

Lemma hexLower_alphabet (bs : list Z) : allBytes lowerHex (crypto.hexLower bs) = true.
Proof.
  induction bs as [|b bs IH]; [done|].
  cbn [crypto.hexLower allBytes]. by rewrite !digitOf_lowerHex, IH.
Qed.

Lemma encoded_inner (s : string) : allBytes encoded s = true → allBytes inner s = true.
Proof.
  induction s as [|c s IH]; [done|]. cbn [allBytes]. intros [Hc Hs]%andb_true_iff.
  rewrite (IH Hs). unfold inner. by rewrite Hc.
Qed.

Lemma queryEscapeByte_encoded (c : ascii) :
  inner c = true → allBytes encoded (queryEscapeByte c) = true.
Proof.
  destruct c as [[] [] [] [] [] [] [] []]; intros H; try discriminate H;
    vm_compute; reflexivity.
Qed.

Lemma QueryEscape_encoded (s : string) :
  allBytes inner s = true → allBytes encoded (QueryEscape s) = true.
Proof.
  induction s as [|c s IH]; [done|]. cbn [allBytes QueryEscape].
  intros [Hc Hs]%andb_true_iff. by rewrite allBytes_app, queryEscapeByte_encoded, IH.
Qed.

Lemma Join_alphabet (P : ascii → bool) (parts : list string) (sep : string) :
  allBytes P sep = true → Forall (λ p, allBytes P p = true) parts →
  allBytes P (Join parts sep) = true.
Proof.
  intros Hsep. induction 1 as [|p parts Hp Hparts IH]; [done|].
  destruct parts as [|q parts]; [done|].
  change (Join (p :: q :: parts) sep) with (p ++ sep ++ Join (q :: parts) sep).
  by rewrite !allBytes_app, Hp, Hsep, IH.
Qed.

Lemma encodeParameters_encoded (rng : RangeOrder) (params : gmap string string) :
  allBytes encoded (encodeParameters rng params) = true.
Proof.
  unfold encodeParameters. apply QueryEscape_encoded, Join_alphabet; [done|].
  apply Forall_fmap, Forall_forall. intros key _. cbn.
  rewrite !allBytes_app. apply andb_true_iff. split.
  - apply encoded_inner. induction key as [|c key IH]; [done|].
    cbn [Rfc3986Escape]. by rewrite allBytes_app, escapeByte_encoded, IH.
  - apply andb_true_iff. split; [done|]. apply encoded_inner.
    generalize (index params key). intros v. induction v as [|c v IH]; [done|].
    cbn [Rfc3986Escape]. by rewrite allBytes_app, escapeByte_encoded, IH.
Qed.

Lemma range_length (rng : RangeOrder) (m : gmap string string) :
  RangeOrder_ok rng → length (rng m) = size m.
Proof. intros H. by rewrite (H m), length_map_to_list. Qed.

End signature_properties.

(** X10.  The signature [GetSignature] computes always has 28 characters,
    the last of which is the padding sign of base64 (which the header then
    carries escaped as %3D). *)
Theorem X10_GetSignature_shape (consumerSecret tokenSecret signatureBase : string) :
  String.length (oauth1a.GetSignature consumerSecret tokenSecret signatureBase) = 28%nat
  ∧ String.get 27 (oauth1a.GetSignature consumerSecret tokenSecret signatureBase)
    = Some "="%char.
Proof. unfold oauth1a.GetSignature. apply base64_20, hmac_sha1_length. Qed.

(** X11.  A nonce of [GenerateNonce] is made of forty lower-case
    hexadecimal digits, whatever the clock says. *)
Theorem X11_GenerateNonce_shape (now : string) :
  String.length (oauth1a.GenerateNonce now) = 40%nat
  ∧ signer_notions.allBytes signer_notions.lowerHex (oauth1a.GenerateNonce now) = true.
Proof. split; [apply GenerateNonce_length|apply hexLower_alphabet]. Qed.

(** X12.  The string of [encodeParameters] is made of unreserved bytes and
    percent signs: the separators of the parameters are themselves escaped
    (as %26 and %3D), so the base string holds no ampersand but the two
    that join its three parts. *)
Theorem X12_encodeParameters_output_alphabet
    (rng : oauth1a.RangeOrder) (params : gmap string string) :
  signer_notions.allBytes signer_notions.encoded (oauth1a.encodeParameters rng params) = true.
Proof. apply encodeParameters_encoded. Qed.

(** X13.  When [Sign] returns, the method, the URL and every header other
    than Authorization are as they were.  The form is the one the request
    had when it was parsed already, and otherwise the one [ParseForm] found
    (the call of [ParseForm] in [GetOAuthParams] shows in the request), and
    after the call the form counts as parsed.  A former Authorization
    header is replaced: the new one is the single value "OAuth " followed
    by one part for each parameter, six parts, or seven when the user has a
    token. *)
Theorem X13_Sign_parses_the_form_and_sets_the_header
    (rngEncode rngHeader : oauth1a.RangeOrder) (nonce timestamp : string)
    (request signed : oauth1a.Request)
    (clientConfig : oauth1a.ClientConfig) (userConfig : oauth1a.UserConfig) :
  oauth1a.RangeOrder_ok rngHeader →
  oauth1a.SignWith rngEncode rngHeader nonce timestamp request clientConfig userConfig
  = Some signed →
  oauth1a.Method signed = oauth1a.Method request
  ∧ oauth1a.Url signed = oauth1a.Url request
  ∧ oauth1a.Form signed
    = match oauth1a.unparsed request with
      | Some form => form
      | None => oauth1a.Form request
      end
  ∧ oauth1a.unparsed signed = None
  ∧ (∀ name, name ≠ "Authorization" →
       oauth1a.Header signed !! name = oauth1a.Header request !! name)
  ∧ ∃ parts,
      oauth1a.Header signed !! "Authorization" = Some ["OAuth " ++ gostd.Join parts ", "]
      ∧ length parts
        = if String.eqb (oauth1a.GetToken userConfig).1 "" then 6%nat else 7%nat.
Proof.
  intros Hok. unfold oauth1a.SignWith.
  destruct (oauth1a.GetOAuthParams _ _ _ _ _ _) as [[params base]|] eqn:Hp; [|done].
  cbv zeta. intros [= <-]. cbn [oauth1a.Method oauth1a.Url oauth1a.Form oauth1a.Header
                                 oauth1a.unparsed].
  destruct (ParseForm_frame request) as (-> & -> & -> & ->).
  rewrite ParseForm_Form. split_and!; try done.
  - intros name Hne. by rewrite lookup_insert_ne.
  - eexists. rewrite lookup_insert_eq. split; [reflexivity|].
    rewrite length_fmap, range_length by done.
    rewrite <- size_dom. rewrite GetOAuthParams_spec in Hp.
    destruct (decide _); [|done]. cbv zeta in Hp. injection Hp as <- _.
    unfold signer_notions.protocolParams.
    destruct (String.eqb _ _) eqn:He; cbn [negb];
      rewrite !dom_insert_L, dom_empty_L, !size_union, !size_singleton, ?size_empty;
      try lia;
      repeat (apply disjoint_union_r; split);
      try apply disjoint_empty_r;
      by apply disjoint_singleton_l, not_elem_of_singleton.
Qed.

Lemma X13_witness :
  ∃ signed,
    oauth1a.SignWith oauth1a.rangeSorted oauth1a.rangeSorted "54321" "12345"
      {| oauth1a.Method := "POST"; oauth1a.Url := oauth1a.Url oauth1a.fixtureRequest;
         oauth1a.Form := ∅; oauth1a.Header := ∅;
         oauth1a.unparsed := Some {["track" := ["go"]]} |}
      oauth1a.fixtureClient oauth1a.fixtureUser
    = Some signed
    ∧ oauth1a.Form signed = {["track" := ["go"]]}
    ∧ oauth1a.unparsed signed = None.
Proof.
  destruct (oauth1a.SignWith oauth1a.rangeSorted oauth1a.rangeSorted "54321" "12345"
              {| oauth1a.Method := "POST"; oauth1a.Url := oauth1a.Url oauth1a.fixtureRequest;
                 oauth1a.Form := ∅; oauth1a.Header := ∅;
                 oauth1a.unparsed := Some {["track" := ["go"]]} |}
              oauth1a.fixtureClient oauth1a.fixtureUser) as [signed|] eqn:Hs;
    [|vm_compute in Hs; discriminate Hs].
  exists signed. split; [reflexivity|].
  destruct (X13_Sign_parses_the_form_and_sets_the_header _ _ _ _ _ _ _ _
              rangeSorted_ok Hs) as (_ & _ & Hf & Hu & _).
  split; [exact Hf|exact Hu].
Defined.

(** ** The token exchange *)

Section handshake_properties.
Import gostd oauth1a handshake.
Local Open Scope string_scope.

Lemma eqb_empty_false (s : string) : String.eqb s "" = false ↔ s ≠ "".
Proof. apply String.eqb_neq. Qed.

Lemma parseAccessToken_spec (response : Response) (userConfig : UserConfig) :
  parseAccessToken response userConfig
  = match Body response with
    | inl e => (userConfig, Some e)
    | inr params =>
        if decide (Get params "oauth_token" ≠ "" ∧ Get params "oauth_token_secret" ≠ "") then
          (setAccess userConfig (Get params "oauth_token")
             (Get params "oauth_token_secret") params, None)
        else (userConfig, Some (NewError "No token or secret found"))
    end.
Proof.
  unfold parseAccessToken. destruct (Body response) as [e|params]; [done|].
  destruct (String.eqb (Get params "oauth_token") "") eqn:H1.
  { apply String.eqb_eq in H1. rewrite decide_False; [done|]. by intros [? _]. }
  destruct (String.eqb (Get params "oauth_token_secret") "") eqn:H2.
  { apply String.eqb_eq in H2. rewrite decide_False; [done|]. by intros [_ ?]. }
  apply String.eqb_neq in H1, H2. by rewrite decide_True.
Qed.

End handshake_properties.

(** X14.  [parseAccessToken] succeeds exactly when the body can be read
    and holds a non-empty [oauth_token] and [oauth_token_secret].  Then
    [GetToken] returns that pair, whatever request token the user still
    holds, and the request token itself is kept; on an error the user
    configuration is left as it was. *)
Theorem X14_parseAccessToken
    (response : handshake.Response) (userConfig : oauth1a.UserConfig) :
  ((handshake.parseAccessToken response userConfig).2 = None
   ↔ ∃ params, handshake.Body response = inr params
       ∧ handshake.Get params "oauth_token" ≠ ""
       ∧ handshake.Get params "oauth_token_secret" ≠ "")
  ∧ (∀ params, handshake.Body response = inr params →
       (handshake.parseAccessToken response userConfig).2 = None →
       oauth1a.GetToken (handshake.parseAccessToken response userConfig).1
       = (handshake.Get params "oauth_token", handshake.Get params "oauth_token_secret")
       ∧ oauth1a.AccessValues (handshake.parseAccessToken response userConfig).1 = params
       ∧ oauth1a.RequestTokenKey (handshake.parseAccessToken response userConfig).1
         = oauth1a.RequestTokenKey userConfig
       ∧ oauth1a.RequestTokenSecret (handshake.parseAccessToken response userConfig).1
         = oauth1a.RequestTokenSecret userConfig)
  ∧ ((handshake.parseAccessToken response userConfig).2 ≠ None →
     (handshake.parseAccessToken response userConfig).1 = userConfig).
Proof.
  rewrite parseAccessToken_spec. destruct (handshake.Body response) as [e|params].
  - split; [|split]; [|done|done]. split; [done|]. by intros (? & ? & _).
  - destruct (decide _) as [[H1 H2]|Hno]; cbn [fst snd].
    + split; [|split].
      * split; [|done]. intros _. by exists params.
      * intros ? [= <-] _. unfold oauth1a.GetToken. cbn.
        apply String.eqb_neq in H1. by rewrite H1.
      * done.
    + split; [|split]; [|done|done]. split; [done|].
      intros (? & [= <-] & ? & ?). by destruct Hno.
Qed.

Lemma X14_witness :
  oauth1a.GetToken
    (handshake.parseAccessToken
       (handshake.answering 200 "200 OK"
          (<["oauth_token" := ["tok"]]> (<["oauth_token_secret" := ["sec"]]> ∅)))
       (handshake.setRequest handshake.newUser "rtok" "rsec")).1
  = ("tok", "sec").
Proof.
  pose proof (proj1 (proj2 (X14_parseAccessToken
    (handshake.answering 200 "200 OK"
       (<["oauth_token" := ["tok"]]> (<["oauth_token_secret" := ["sec"]]> ∅)))
    (handshake.setRequest handshake.newUser "rtok" "rsec"))) _ eq_refl) as H.
  destruct H as [H _]; [vm_compute; reflexivity|].
  rewrite H. vm_compute. reflexivity.
Defined.

(** X15.  [parseRequestToken] stores the request token as soon as the body
    holds a non-empty token and secret, also when it then returns the error
    "OAuth callback not confirmed"; in both cases [GetAuthorizeUrl] succeeds
    on the configuration it leaves, with the authorize URL followed by
    [?oauth_token=] and the escaped token. *)
Theorem X15_parseRequestToken_then_GetAuthorizeUrl
    (s : handshake.Service) (response : handshake.Response)
    (userConfig : oauth1a.UserConfig) (params : oauth1a.Values) :
  handshake.Body response = inr params →
  handshake.Get params "oauth_token" ≠ "" →
  handshake.Get params "oauth_token_secret" ≠ "" →
  (handshake.parseRequestToken response userConfig).1
  = handshake.setRequest userConfig (handshake.Get params "oauth_token")
      (handshake.Get params "oauth_token_secret")
  ∧ (handshake.parseRequestToken response userConfig).2
    = (if String.eqb (handshake.Get params "oauth_callback_confirmed") "false"
       then Some (handshake.NewError "OAuth callback not confirmed") else None)
  ∧ handshake.GetAuthorizeUrl s (handshake.parseRequestToken response userConfig).1
    = (handshake.AuthorizeURL s ++ "?oauth_token=" ++
       gostd.QueryEscape (handshake.Get params "oauth_token"), None).
Proof.
  intros Hb H1%String.eqb_neq H2%String.eqb_neq.
  unfold handshake.parseRequestToken. rewrite Hb, H1, H2. cbn [orb].
  unfold handshake.GetAuthorizeUrl.
  destruct (String.eqb (handshake.Get params "oauth_callback_confirmed") "false");
    cbn; by rewrite H1, H2.
Qed.

Lemma X15_witness :
  handshake.GetAuthorizeUrl
    {| handshake.RequestURL := "https://api/request"; handshake.AuthorizeURL := "https://api/auth";
       handshake.AccessURL := "https://api/access"; handshake.Config := oauth1a.fixtureClient;
       handshake.Sign := λ r _ _, (r, None) |}
    (handshake.parseRequestToken
       (handshake.answering 200 "200 OK"
          (<["oauth_token" := ["a b"]]>
             (<["oauth_token_secret" := ["sec"]]>
                (<["oauth_callback_confirmed" := ["false"]]> ∅))))
       handshake.newUser).1
  = ("https://api/auth?oauth_token=a+b", None).
Proof.
  pose proof (X15_parseRequestToken_then_GetAuthorizeUrl
    {| handshake.RequestURL := "https://api/request";
       handshake.AuthorizeURL := "https://api/auth";
       handshake.AccessURL := "https://api/access";
       handshake.Config := oauth1a.fixtureClient;
       handshake.Sign := λ r _ _, (r, None) |}
    (handshake.answering 200 "200 OK"
       (<["oauth_token" := ["a b"]]>
          (<["oauth_token_secret" := ["sec"]]>
             (<["oauth_callback_confirmed" := ["false"]]> ∅))))
    handshake.newUser _ eq_refl) as H.
  destruct H as (_ & _ & H); [vm_compute; intros E; discriminate E ..|].
  exact H.
Defined.

(** X16.  [GetAuthorizeUrl] fails exactly when the request token or its
    secret is empty, and then returns the empty string. *)
Theorem X16_GetAuthorizeUrl_needs_request_token
    (s : handshake.Service) (userConfig : oauth1a.UserConfig) :
  ((handshake.GetAuthorizeUrl s userConfig).2 ≠ None
   ↔ oauth1a.RequestTokenKey userConfig = "" ∨ oauth1a.RequestTokenSecret userConfig = "")
  ∧ ((handshake.GetAuthorizeUrl s userConfig).2 ≠ None →
     handshake.GetAuthorizeUrl s userConfig
     = ("", Some (handshake.NewError "No configured request token"))).
Proof.
  unfold handshake.GetAuthorizeUrl.
  destruct (String.eqb (oauth1a.RequestTokenKey userConfig) "") eqn:H1;
    [apply String.eqb_eq in H1; cbn; split; [split; [auto|done]|done]|].
  destruct (String.eqb (oauth1a.RequestTokenSecret userConfig) "") eqn:H2;
    [apply String.eqb_eq in H2; cbn; split; [split; [auto|done]|done]|].
  apply String.eqb_neq in H1, H2. cbn. split; [|done]. split; [done|]. by intros [|].
Qed.

(** X17.  [Send] hands the request to the client at most once, and only as
    the signer left it; when signing fails the client is not called.  It
    returns a response exactly when the client answers with status 200,
    and an error in every other case: then the error of the signer, that
    of the client, or "Endpoint response: " and the status. *)
Theorem X17_Send
    (s : handshake.Service) (request : oauth1a.Request)
    (userConfig : oauth1a.UserConfig) (client : handshake.Client) :
  let signed := (handshake.Sign s request (handshake.Config s) userConfig).1 in
  let signErr := (handshake.Sign s request (handshake.Config s) userConfig).2 in
  let '(client', (response, err)) := handshake.Send s request userConfig client in
  handshake.answer client' = handshake.answer client
  ∧ handshake.requests client'
    = (handshake.requests client
       ++ match signErr with Some _ => [] | None => [signed] end)%list
  ∧ (response = None ↔ err ≠ None)
  ∧ (∀ r, response = Some r →
       signErr = None ∧ handshake.answer client signed = inr r
       ∧ handshake.StatusCode r = 200%Z)
  ∧ (∀ e, signErr = Some e → err = Some e)
  ∧ (∀ e, signErr = None → handshake.answer client signed = inl e → err = Some e)
  ∧ (∀ r, signErr = None → handshake.answer client signed = inr r →
       handshake.StatusCode r ≠ 200%Z →
       err = Some (handshake.NewError ("Endpoint response: " ++ handshake.Status r))).
Proof.
  unfold handshake.Send, handshake.Do.
  destruct (handshake.Sign s request (handshake.Config s) userConfig) as [signed [e|]];
    cbn [fst snd].
  - rewrite app_nil_r. split_and!; try done; intros; by simplify_eq.
  - destruct (handshake.answer client signed) as [e|r] eqn:Ha; cbn.
    + split_and!; try done; intros; by simplify_eq.
    + destruct (Z.eqb_spec (handshake.StatusCode r) 200) as [Hs|Hs]; cbn;
        split_and!; try done; intros; by simplify_eq.
Qed.

(** ** The streaming client: sizes, output and transport *)

Section hex_properties.
Import twstream notions.
Local Open Scope Z_scope.

Lemma hexValue_fold (line : bytes) (acc : Z) :
  fold_left (λ acc c, acc * 16 + digitValue c) line acc
  = acc * 16 ^ len line + hexValue line.
Proof.
  unfold hexValue, len. revert acc. induction line as [|c line IH]; intros acc.
  - simpl. lia.
  - cbn [fold_left length]. rewrite IH, (IH (0 * 16 + digitValue c)).
    rewrite Nat2Z.inj_succ, Z.pow_succ_r by lia. lia.
Qed.

Lemma digitValue_range (c : ascii) : isHexDigit c = true → 0 ≤ digitValue c < 16.
Proof.
  unfold isHexDigit, digitValue. pose proof (code_range c).
  destruct ((48 <=? code c) && (code c <=? 57)) eqn:H1.
  { apply andb_true_iff in H1 as [?%Z.leb_le ?%Z.leb_le]. lia. }
  destruct ((97 <=? code c) && (code c <=? 102)) eqn:H2.
  { apply andb_true_iff in H2 as [?%Z.leb_le ?%Z.leb_le]. lia. }
  destruct ((65 <=? code c) && (code c <=? 70)) eqn:H3; [|done].
  apply andb_true_iff in H3 as [?%Z.leb_le ?%Z.leb_le]. lia.
Qed.

(** A line of [n] hexadecimal digits denotes a number below 16^n. *)
Lemma hexValue_bound (line : bytes) :
  forallb isHexDigit line = true → 0 ≤ hexValue line < 16 ^ len line.
Proof.
  induction line as [|c line IH]; [by simpl; unfold hexValue, len; simpl; lia|].
  cbn [forallb]. intros [Hc Hl]%andb_true_iff. specialize (IH Hl).
  pose proof (digitValue_range c Hc).
  unfold hexValue. cbn [fold_left]. rewrite hexValue_fold.
  unfold len in *. cbn [length]. rewrite Nat2Z.inj_succ, Z.pow_succ_r by lia. nia.
Qed.

End hex_properties.

(** X18.  [decodeHexString] fails, with the value 0, exactly when a
    character is outside 0-9, a-f, A-F (the empty line is valid and gives
    0); otherwise it returns the number the digits denote modulo 2^64,
    which is the number itself for up to sixteen digits. *)
Theorem X18_decodeHexString (data : twstream.bytes) :
  (forallb notions.isHexDigit data = false →
   twstream.decodeHexString data = (0%Z, Some (twstream.errors_New "Invalid hex")))
  ∧ (forallb notions.isHexDigit data = true →
     twstream.decodeHexString data = ((notions.hexValue data mod 2 ^ 64)%Z, None))
  ∧ (forallb notions.isHexDigit data = true → (length data ≤ 16)%nat →
     twstream.decodeHexString data = (notions.hexValue data, None)).
Proof.
  split; [|split].
  - intros H. by apply decodeHexLoop_invalid.
  - intros H. by apply decodeHexString_valid.
  - intros H Hl. rewrite decodeHexString_valid by done. unfold twstream.u64.
    pose proof (hexValue_bound data H) as Hb. unfold twstream.len in Hb.
    rewrite Z.mod_small; [done|]. split; [lia|].
    eapply Z.lt_le_trans; [apply Hb|].
    change (2 ^ 64)%Z with (16 ^ 16)%Z. apply Z.pow_le_mono_r; lia.
Qed.

Lemma X18_witness :
  twstream.decodeHexString (fixtures.B "1fF")
  = (notions.hexValue (fixtures.B "1fF"), None).
Proof.
  apply (proj2 (proj2 (X18_decodeHexString (fixtures.B "1fF")))).
  - reflexivity.
  - vm_compute. lia.
Defined.

Section output_properties.
Import twstream notions.
Local Open Scope nat_scope.
Local Open Scope list_scope.

Lemma filter_passes (slices : list bytes) :
  Forall (λ p, passes p = true) (List.filter passes slices).
Proof. apply Forall_forall. intros p Hp%list_elem_of_In%filter_In. tauto. Qed.

(** A copy through a [NonEmptyWriter] adds only slices that pass. *)
Lemma CopyN_stdout_added (log : Log) (src : Reader) (n : Z) dst src' err :
  CopyN {| Writer := log |} src n = (dst, src', err) →
  ∃ added, written (Writer dst) = written log ++ added
           ∧ Forall (λ p, passes p = true) added.
Proof.
  destruct (decide (n ≤ 0)%Z) as [Hn|Hn].
  - rewrite CopyN_nothing by done. intros [= <- _ _]. exists []. by rewrite app_nil_r.
  - rewrite CopyN_stdout by lia. intros [= <- _ _]. eexists. split; [reflexivity|].
    apply filter_passes.
Qed.

Lemma readChunk_added (gzip : bool) (r : Reader) (gz : Gz) (w : World) :
  match readChunk gzip r gz w with
  | inl (_, _, w') => w' = w
  | inr (_, _, _, w') =>
      ∃ added, w' = setStdout w {| written := written (stdout w) ++ added |}
               ∧ Forall (λ p, passes p = true) added
  end.
Proof.
  unfold readChunk. destruct (ReadLine r) as [[line [e|]] r1]; [done|].
  destruct (decodeHexString line) as [size [e|]]; [done|].
  destruct gzip; cbn [negb].
  - destruct (CopyN _ _ _) as [[buffer r2] [e|]]; [done|].
    destruct (if opened gz then None else gzipOpen w (content buffer)); [done|].
    destruct (inflate w _) as [e|data]; [done|].
    rewrite NonEmptyWriter_Write_spec. destruct (passes data) eqn:Hp; cbn.
    + exists [data]. split; [done|]. by constructor.
    + exists []. rewrite app_nil_r. split; [|done]. by destruct (stdout w).
  - destruct (CopyN _ _ _) as [[dst r2] cerr] eqn:Hc.
    apply CopyN_stdout_added in Hc as (added & Hw & Hall).
    exists added. split; [|done]. f_equal. destruct dst as [[out]]. cbn in *. by subst.
Qed.

Lemma expired_stdout (ttl start : Z) (w : World) :
  stdout (expired ttl start w).2 = stdout w.
Proof. unfold expired, Now. by destruct (0 <? ttl)%Z. Qed.

Lemma readChunkedLoop_added (fuel : nat) (gzip : bool) (ttl start : Z)
    (r : Reader) (gz : Gz) (w : World) res r' w' :
  readChunkedLoop fuel gzip ttl start r gz w = Some (res, r', w') →
  ∃ added, written (stdout w') = written (stdout w) ++ added
           ∧ Forall (λ p, passes p = true) added.
Proof.
  revert r gz w. induction fuel as [|fuel IH]; intros r gz w; [done|].
  cbn [readChunkedLoop]. pose proof (readChunk_added gzip r gz w) as Hc.
  destruct (readChunk gzip r gz w) as [[[res1 r1] w1]|[[[err r1] gz1] w1]].
  - intros [= _ _ <-]. subst w1. exists []. by rewrite app_nil_r.
  - destruct Hc as (added & -> & Hall).
    pose proof (expired_stdout ttl start
                  (setStdout w {| written := written (stdout w) ++ added |})) as Hs.
    destruct (expired ttl start _) as [stop w2]. cbn [snd] in Hs.
    destruct stop; [|destruct err as [e|]].
    + intros [= _ _ <-]. exists added. by rewrite Hs.
    + intros [= _ _ <-]. exists added. by rewrite Hs.
    + intros (added' & Hw & Hall')%IH. rewrite Hs in Hw. cbn in Hw.
      exists (added ++ added'). rewrite Hw, app_assoc. split; [done|].
      by apply Forall_app.
Qed.

End output_properties.

(** X19.  In chunked mode, with or without gzip, every segment the loop
    writes to the standard output is neither empty nor a bare CR LF: what
    it returns with has only added such segments to what was there. *)
Theorem X19_chunked_output_has_no_blank_segment
    (fuel : nat) (gzip : bool) (ttl start : Z) (r : twstream.Reader)
    (gz : twstream.Gz) (w : twstream.World)
    (res : twstream.result) (r' : twstream.Reader) (w' : twstream.World) :
  twstream.readChunkedLoop fuel gzip ttl start r gz w = Some (res, r', w') →
  ∃ added,
    twstream.written (twstream.stdout w')
    = (twstream.written (twstream.stdout w) ++ added)%list
    ∧ Forall (λ p, p ≠ [] ∧ p ≠ twstream.CRLF) added.
Proof.
  intros (added & Hw & Hall)%readChunkedLoop_added. exists added. split; [done|].
  eapply Forall_impl; [exact Hall|]. intros p Hp. unfold notions.passes in Hp.
  apply andb_true_iff in Hp as [H1%negb_true_iff%bool_decide_eq_false
                                H2%negb_true_iff%bool_decide_eq_false].
  done.
Qed.

Lemma X19_witness :
  ∃ added,
    twstream.written (twstream.stdout fixtures.quiet)
    = (twstream.written (twstream.stdout fixtures.quiet) ++ added)%list
    ∧ Forall (λ p, p ≠ [] ∧ p ≠ twstream.CRLF) added.
Proof.
  apply (X19_chunked_output_has_no_blank_segment 8 false 0 0
           (fixtures.readerOver ("2" ++ fixtures.crlf ++ fixtures.crlf ++ fixtures.crlf) [])
           fixtures.noGzip fixtures.quiet
           (twstream.Return (Some twstream.io_EOF)) (fixtures.readerOver "" [])
           fixtures.quiet).
  vm_compute. reflexivity.
Defined.

(** X20.  With a reader listener configured, [Connection.Read] never
    returns, whatever the fuel: its first read of the response goes through
    [listeningReader.Read]. *)
Theorem X20_Read_with_reader_listener_never_returns
    (fuel : nat) (c : twstream.Connection) (w : twstream.World) (l : twstream.Log) :
  twstream.dialError w = None →
  twstream.ReaderListener (twstream.conf c) = Some l →
  twstream.Read fuel c w = None.
Proof. apply Read_with_reader_listener. Qed.

Lemma X20_witness :
  twstream.Read 100
    (twstream.NewConnection
       (fixtures.config false 0 (Some {| twstream.written := [] |})) fixtures.credentials)
    (fixtures.world (fixtures.peerSending (fixtures.response "tweet") None) 1)
  = None.
Proof. by apply (X20_Read_with_reader_listener_never_returns _ _ _ {| twstream.written := [] |}). Defined.

(** ** The transport: dialling, sending, closing *)

Section transport_properties.
Import twstream notions.
Local Open Scope nat_scope.
Local Open Scope list_scope.

Lemma Conn_Write_closes (k : Conn) (p : bytes) : closes (Write k p).1 = closes k.
Proof. unfold Write, Conn_Write. by destruct (writeError k). Qed.

Lemma MultiWriter_first_closes (k : Conn) (l : Log) (p : bytes) :
  closes (first (Write {| first := k; second := l |} p).1) = closes k.
Proof.
  unfold Write at 1, MultiWriter_Write. cbn [first second].
  pose proof (Conn_Write_closes k p) as Hk.
  destruct (Write k p) as [a [n [e|]]]; cbn [fst] in Hk; [done|].
  destruct (negb (n =? len p)%Z); [done|].
  destruct (Write l p) as [b [n' [e|]]]; [done|].
  by destruct (negb (n' =? len p)%Z).
Qed.

Lemma writeOut_closes (c : Connection) (data : bytes) (k : Conn) :
  conn c = Some k →
  ∃ k', conn (writeOut c data).1 = Some k' ∧ closes k' = closes k.
Proof.
  intros Hk. unfold writeOut. rewrite Hk.
  destruct (writer c) as [[]|], (WriterListener (conf c)) as [l|];
    try (pose proof (Conn_Write_closes k data) as H;
         destruct (Write k data) as [k' [n err]]; by exists k').
  pose proof (MultiWriter_first_closes k l data) as H.
  destruct (Write {| first := k; second := l |} data) as [m [n err]].
  by exists (first m).
Qed.

(** [request] leaves the connection open. *)
Lemma request_closes (c : Connection) (w : World) (k : Conn) :
  conn c = Some k →
  ∃ k', conn (request c w).1.2 = Some k' ∧ closes k' = closes k.
Proof.
  intros Hk. unfold request.
  destruct (writer c); [|by exists k].
  destruct (newRequestError w); [by exists k|].
  cbv zeta. destruct (oauth1a.Sign _ _ _ _) as [req|]; [|by exists k].
  match goal with
  | |- context [writeOut c ?d] =>
      destruct (writeOut_closes c d k Hk) as (k' & Hc & Hcl);
      destruct (writeOut c d) as [c' err]
  end.
  by exists k'.
Qed.

Lemma readHeaders_conn (fuel : nat) (c : Connection) (w : World) res c' w' :
  readHeaders fuel c w = Some (res, c', w') → conn c' = conn c.
Proof.
  unfold readHeaders. destruct (reader c) as [rd|]; [|by intros [= _ <- _]].
  destruct (force fuel w rd) as [r|]; [|done].
  destruct (readHeadersLoop _ fuel r false) as [[[[e|] r'] g]|]; [| |done].
  - by intros [= _ <- _].
  - cbn. destruct (_ && _); by intros [= _ <- _].
Qed.

Lemma readData_conn (fuel : nat) (c : Connection) (w : World) res c' w' :
  readData fuel c w = Some (res, c', w') → conn c' = conn c.
Proof.
  unfold readData. destruct (reader c) as [rd|]; [|by intros [= _ <- _]].
  destruct (force fuel w rd) as [r|]; [|done].
  destruct (GZip (conf c)).
  - destruct (gunzip w (pending r)) as [e|[decoded zerr]]; [by intros [= _ <- _]|].
    destruct (Now w) as [start w1].
    destruct (readDataLoop _ _ _ _ _) as [[[err r'] w2]|]; [|done].
    by intros [= _ <- _].
  - destruct (Now w) as [start w1].
    destruct (readDataLoop _ _ _ _ _) as [[[err r'] w2]|]; [|done].
    by intros [= _ <- _].
Qed.

Lemma readChunkedData_conn (fuel : nat) (c : Connection) (w : World) res c' w' :
  readChunkedData fuel c w = Some (res, c', w') → conn c' = conn c.
Proof.
  unfold readChunkedData. destruct (Now w) as [start w1].
  destruct (reader c) as [rd|]; [|by intros [= _ <- _]].
  destruct (force fuel w1 rd) as [r|]; [|done].
  destruct (readChunkedLoop _ _ _ _ _ _ _) as [[[res' r'] w2]|]; [|done].
  by intros [= _ <- _].
Qed.

(** Every return of [Read] after a successful dial goes through the
    deferred [Close], once. *)
Lemma Read_closes (fuel : nat) (c : Connection) (w : World) res c' w' :
  dialError w = None →
  Read fuel c w = Some (res, c', w') →
  ∃ k, conn c' = Some k ∧ closes k = S (closes (peer w)).
Proof.
  intros Hd. unfold Read, connect. rewrite Hd.
  cbv beta iota zeta. cbn [setConn setWriter conn conf].
  match goal with
  | |- context [request ?c0 w] =>
      destruct (request_closes c0 w (peer w) eq_refl) as (k1 & Hk1 & Hc1);
      destruct (request c0 w) as [[sent c1] w1]
  end.
  cbn [fst snd] in Hk1.
  assert (∀ (o : outcome), conn o.1.2 = Some k1 → Some (closing o) = Some (res, c', w') →
          ∃ k, conn c' = Some k ∧ closes k = S (closes (peer w))) as Hclose.
  { intros [[ro co] wo] Hco [= <- <- <-]. exists (Close k1). cbn in *.
    rewrite Hco. cbn. by rewrite Hc1. }
  destruct sent as [serr|msg]; [|by apply Hclose].
  destruct (readHeaders fuel c1 w1) as [[[rh c2] w2]|] eqn:Hh; [|done].
  apply readHeaders_conn in Hh. rewrite Hk1 in Hh.
  destruct rh as [[e|]|msg]; [by apply Hclose| |by apply Hclose].
  destruct (Chunked (conf c2)).
  - destruct (readChunkedData fuel c2 w2) as [[[rb c3] w3]|] eqn:Hb; [|done].
    apply readChunkedData_conn in Hb. rewrite Hh in Hb. by apply Hclose.
  - destruct (readData fuel c2 w2) as [[[rb c3] w3]|] eqn:Hb; [|done].
    apply readData_conn in Hb. rewrite Hh in Hb. by apply Hclose.
Qed.

(** [request] with a writer listener: one frame, the signed request as the
    HTTP library writes it, goes to the connection and then to the
    listener; when the connection refuses the write, nothing goes to the
    listener. *)
Lemma request_sends (c : Connection) (w : World) (k : Conn) (l : Log) :
  conn c = Some k → writer c = Some toConnAndListener →
  WriterListener (conf c) = Some l → newRequestError w = None →
  ∃ req c',
    let frame := wire w req (negb (String.eqb (Proxy (conf c)) "")) in
    let added := match writeError k with Some _ => [] | None => [frame] end in
    request c w = (Return (writeError k), c', w)
    ∧ oauth1a.Method req = Method (conf c)
    ∧ is_Some (oauth1a.Header req !! "Authorization"%string)
    ∧ oauth1a.Header req !! "Connection"%string
      = (if Chunked (conf c) then None else Some ["close"%string])
    ∧ oauth1a.Header req !! "Accept-Encoding"%string
      = (if GZip (conf c) then Some ["deflate, gzip"%string] else None)
    ∧ sent <$> conn c' = Some (sent k ++ added)
    ∧ written <$> WriterListener (conf c') = Some (written l ++ added).
Proof.
  intros Hk Hw Hl Hn. unfold request. rewrite Hw, Hn. cbv zeta.
  match goal with
  | |- context [oauth1a.Sign ?e ?r ?cl ?u] =>
      destruct (Sign_no_values e r cl u eq_refl eq_refl) as [req Hs]; rewrite Hs
  end.
  exists req.
  assert (oauth1a.Method req = Method (conf c)
          ∧ is_Some (oauth1a.Header req !! "Authorization"%string)
          ∧ oauth1a.Header req !! "Connection"%string
            = (if Chunked (conf c) then None else Some ["close"%string])
          ∧ oauth1a.Header req !! "Accept-Encoding"%string
            = (if GZip (conf c) then Some ["deflate, gzip"%string] else None))
    as (Hm & Ha & Hc & Hz).
  { unfold oauth1a.Sign, oauth1a.SignWith in Hs.
    destruct (oauth1a.GetOAuthParams _ _ _ _ _ _) as [[params base]|]; [|done].
    injection Hs as <-. cbn [oauth1a.Method oauth1a.Header]. split_and!.
    - done.
    - by rewrite lookup_insert_eq.
    - rewrite lookup_insert_ne by done.
      destruct (Chunked (conf c)), (GZip (conf c)); by vm_compute.
    - rewrite lookup_insert_ne by done.
      destruct (Chunked (conf c)), (GZip (conf c)); by vm_compute. }
  clear Hs. unfold writeOut. rewrite Hk, Hw, Hl.
  unfold Write at 1, MultiWriter_Write. cbn [first second].
  unfold Write at 1, Conn_Write. destruct (writeError k) as [e|] eqn:He.
  - eexists. cbv zeta. split; [reflexivity|]. cbn. by rewrite !app_nil_r.
  - rewrite Z.eqb_refl. cbn [negb]. unfold Write, Log_Write.
    rewrite Z.eqb_refl. cbn [negb].
    eexists. cbv zeta. split; [reflexivity|]. by cbn.
Qed.

End transport_properties.

(** X21.  When the dial fails, [Read] returns its error at once, whatever
    the fuel: it sends nothing, reads nothing, prints nothing, and, as the
    [defer] is not reached, closes nothing; the connection object is as it
    was, without a transport. *)
Theorem X21_Read_dial_failure
    (fuel : nat) (c : twstream.Connection) (w : twstream.World) (e : twstream.error) :
  twstream.dialError w = Some e →
  twstream.Read fuel c w = Some (twstream.Return (Some e), c, w).
Proof. intros Hd. unfold twstream.Read, twstream.connect. by rewrite Hd. Qed.

Lemma X21_witness :
  twstream.Read 0 (fixtures.connection false 0) transport_fixtures.refusing
  = Some (twstream.Return (Some (twstream.foreign "connection refused")),
          fixtures.connection false 0, transport_fixtures.refusing).
Proof. by apply X21_Read_dial_failure. Defined.

(** X22.  With a writer listener, [request] sends one frame: the request
    with the configured method, signed, with [Connection: close] exactly
    when the stream is not chunked and [Accept-Encoding: deflate, gzip]
    exactly when gzip is asked for.  The frame goes to the connection and
    then, the same bytes, to the listener; when the connection refuses the
    write, [request] returns that error and the listener gets nothing. *)
Theorem X22_request_tees_to_listener
    (c : twstream.Connection) (w : twstream.World) (k : twstream.Conn) (l : twstream.Log) :
  twstream.conn c = Some k → twstream.writer c = Some twstream.toConnAndListener →
  twstream.WriterListener (twstream.conf c) = Some l →
  twstream.newRequestError w = None →
  ∃ req c',
    let frame :=
      twstream.wire w req (negb (String.eqb (twstream.Proxy (twstream.conf c)) "")) in
    let added := match twstream.writeError k with Some _ => [] | None => [frame] end in
    twstream.request c w = (twstream.Return (twstream.writeError k), c', w)
    ∧ oauth1a.Method req = twstream.Method (twstream.conf c)
    ∧ is_Some (oauth1a.Header req !! "Authorization")
    ∧ oauth1a.Header req !! "Connection"
      = (if twstream.Chunked (twstream.conf c) then None else Some ["close"])
    ∧ oauth1a.Header req !! "Accept-Encoding"
      = (if twstream.GZip (twstream.conf c) then Some ["deflate, gzip"] else None)
    ∧ twstream.sent <$> twstream.conn c' = Some (twstream.sent k ++ added)%list
    ∧ twstream.written <$> twstream.WriterListener (twstream.conf c')
      = Some (twstream.written l ++ added)%list.
Proof. apply request_sends. Qed.

Lemma X22_witness :
  ∃ req c',
    twstream.request transport_fixtures.teeing fixtures.quiet
    = (twstream.Return None, c', fixtures.quiet)
    ∧ oauth1a.Header req !! "Connection" = Some ["close"]
    ∧ twstream.sent <$> twstream.conn c' = Some [fixtures.wireLine req false]
    ∧ twstream.written <$> twstream.WriterListener (twstream.conf c')
      = Some [fixtures.wireLine req false].
Proof.
  destruct (X22_request_tees_to_listener transport_fixtures.teeing fixtures.quiet
              (fixtures.peerSending "" None) {| twstream.written := [] |}
              eq_refl eq_refl eq_refl eq_refl)
    as (req & c' & Hreq & _ & _ & Hconn & _ & Hsent & Hwritten).
  exists req, c'. split_and!; [exact Hreq|exact Hconn|exact Hsent|exact Hwritten].
Defined.

(** X23.  After a successful dial, every return of [Read] has closed the
    connection exactly once, whether it ends with an error, with nil or in
    a panic; and without a reader listener [Read] does return on every
    finite stream. *)
Theorem X23_Read_closes_the_connection_once
    (c : twstream.Connection) (w : twstream.World) :
  twstream.dialError w = None →
  (∀ fuel res c' w', twstream.Read fuel c w = Some (res, c', w') →
     ∃ k, twstream.conn c' = Some k
          ∧ twstream.closes k = S (twstream.closes (twstream.peer w)))
  ∧ (twstream.ReaderListener (twstream.conf c) = None →
     ∃ N, ∀ fuel, (N < fuel)%nat → is_Some (twstream.Read fuel c w)).
Proof.
  intros Hd. split.
  - intros fuel res c' w'. by apply Read_closes.
  - intros Hl. destruct (Read_total c w Hd Hl) as [N HN]. exists N.
    intros fuel Hlt. destruct (HN fuel Hlt) as (res & c' & w' & -> & _). by eexists.
Qed.

Lemma X23_witness :
  (∀ fuel res c' w',
     twstream.Read fuel (fixtures.connection false 0)
       (fixtures.world (fixtures.peerSending (fixtures.response "tweet") None) 1)
     = Some (res, c', w') →
     ∃ k, twstream.conn c' = Some k ∧ twstream.closes k = 1%nat)
  ∧ (twstream.ReaderListener (twstream.conf (fixtures.connection false 0)) = None →
     ∃ N, ∀ fuel, (N < fuel)%nat →
       is_Some (twstream.Read fuel (fixtures.connection false 0)
                  (fixtures.world (fixtures.peerSending (fixtures.response "tweet") None) 1))).
Proof.
  apply (X23_Read_closes_the_connection_once (fixtures.connection false 0)
           (fixtures.world (fixtures.peerSending (fixtures.response "tweet") None) 1)).
  reflexivity.
Defined.
